(** * LocalBanker: the client-side budget cache of rtbkit

    A shallow embedding of [rtbkit/core/banker/local_banker.cc].  The banker
    object becomes a record, every member function a command of a small
    state-and-output monad: the output is the list of telemetry records and
    HTTP requests the function produces, in program order.  An HTTP callback
    is a constructor of [Callback]; delivering a response runs the body of
    the corresponding C++ lambda.

    Every member function and every callback body runs as one step: the
    mutex and the threads are not part of the model.  Printing to [cout] is
    left out.  Amounts and HTTP status codes are integers of [Z]; the skip
    counters, whose declaration is not in the source file, are shown to stay
    between 0 and 3. *)

From Stdlib Require Import ZArith Lia Ascii String.
From stdpp Require Import base option list gmap sets strings.

Local Open Scope string_scope.
Local Open Scope Z_scope.
Local Open Scope list_scope.

(* set_solver clears hypotheses it has already consumed *)
#[local] Set Warnings "-clear-no-such-hyp".

(** ** JSON values *)

Module Json.

(** Modelled from the spec: the JSON library (jsoncpp, [Json::Value],
    [Json::parse]) is an external collaborator and is not part of the
    source file.  Values are trees; integers are the micro-unit integers
    of the wire schema. *)
#[local] Unset Elimination Schemes.
Inductive Value : Type :=
| nullValue
| intValue (n : Z)
| stringValue (s : string)
| arrayValue (items : list Value)
| objectValue (members : list (string * Value)).
#[local] Set Elimination Schemes.

(** Modelled from the spec: a response body is represented by what
    [Json::parse] makes of it, either a syntax error (the exception caught
    by the handlers) or the decoded value. *)
Inductive Body : Type :=
| garbled (raw : string)
| document (v : Value).

Definition parse (body : Body) : option Value :=
  match body with
  | garbled _ => None
  | document v => Some v
  end.

(** Modelled from the spec: [asString] and [asInt] on a value of the
    expected shape; any other shape reads as the neutral value. *)
Definition asString (v : Value) : string :=
  match v with
  | stringValue s => s
  | _ => ""
  end.

Definition asInt (v : Value) : Z :=
  match v with
  | intValue n => n
  | _ => 0
  end.

Fixpoint lookup_member (name : string) (members : list (string * Value)) : Value :=
  match members with
  | [] => nullValue
  | (k, v) :: rest => if decide (k = name) then v else lookup_member name rest
  end.

(** [v[name]]: the member of an object, null when there is none. *)
Definition member (name : string) (v : Value) : Value :=
  match v with
  | objectValue members => lookup_member name members
  | _ => nullValue
  end.

(** [for (auto it = v.begin(); it != v.end(); it++)] with [it.key()] and
    [*it]: the members of an object. *)
Definition entries (v : Value) : list (string * Value) :=
  match v with
  | objectValue members => members
  | _ => []
  end.

(** [for (auto x : v)]: the elements of an array. *)
Definition elements (v : Value) : list Value :=
  match v with
  | arrayValue items => items
  | objectValue members => members.*2
  | _ => []
  end.

End Json.

(** ** Wire payloads *)

Module Wire.

(** Modelled from the spec: the response payloads of section 6 as JSON
    values.  A spend-update response maps account names to status
    strings; a reauthorize response is a sequence of account records. *)
Definition statuses (l : list (string * string)) : Json.Value :=
  Json.objectValue ((λ e, (e.1, Json.stringValue e.2)) <$> l).

Record AccountRecord : Type := mkRecord {
  name : string;
  balance : Z;
  rate : Z
}.

Definition account (a : AccountRecord) : Json.Value :=
  Json.objectValue
    [("balance", Json.intValue (balance a));
     ("name", Json.stringValue (name a));
     ("rate", Json.intValue (rate a))].

Definition accountList (l : list AccountRecord) : Json.Value :=
  Json.arrayValue (account <$> l).

End Wire.

(** ** Account keys *)

(** Modelled from the spec: [AccountKey] (account_key.h is not part of the
    source file) is an ordered sequence of path segments, rendered as a
    colon-joined string; equality is equality of the segment sequences. *)
Abbreviation AccountKey := (list string).

Module Key.

(** The segments of [val] between colons. *)
Fixpoint split (val : string) : list string :=
  match val with
  | EmptyString => [""]
  | String c rest =>
      if decide (c = ":"%char) then "" :: split rest
      else match split rest with
           | [] => [String c ""]
           | seg :: segs => String c seg :: segs
           end
  end.

(** [AccountKey(const std::string &)] *)
Definition ofString (val : string) : AccountKey :=
  match val with
  | EmptyString => []
  | _ => split val
  end.

(** [AccountKey::toString()] *)
Fixpoint toString (key : AccountKey) : string :=
  match key with
  | [] => ""
  | [seg] => seg
  | seg :: rest => seg +:+ ":" +:+ toString rest
  end.

End Key.

(** ** The account store *)

Module Accounts.

(** Modelled from the spec: the account store (local_account.h is not part
    of the source file) is the mapping of section 4.1.  Amounts are integer
    micro-units.  [getBalance] takes the sentinel option of the spec and
    answers 0 for an absent key; the delta [accumulateBalance] returns for
    an absent key, which the spec leaves open, is taken against a zero
    balance (it only reaches telemetry). *)
Record Account : Type := mkAccount {
  balance : Z;
  accumulatedSpend : Z;
  rate : Z
}.

Record t : Type := mk {
  accounts : gmap AccountKey Account;
  spendRate : Z
}.

Definition exists_ (key : AccountKey) (s : t) : bool :=
  bool_decide (is_Some (accounts s !! key)).

Definition getBalance (key : AccountKey) (s : t) : Z :=
  match accounts s !! key with
  | Some a => balance a
  | None => 0
  end.

Definition setSpendRate (newSpendRate : Z) (s : t) : t :=
  mk (accounts s) newSpendRate.

Definition accumulateBalance (key : AccountKey) (newBalance : Z) (s : t) : t * Z :=
  match accounts s !! key with
  | Some a =>
      (mk (<[key := mkAccount newBalance (accumulatedSpend a) (rate a)]> (accounts s))
          (spendRate s),
       newBalance - balance a)
  | None =>
      (mk (<[key := mkAccount newBalance 0 (spendRate s)]> (accounts s)) (spendRate s),
       newBalance)
  end.

(** The canonical account record [{name, balance, rate}] of the wire
    schema; [None] when a required field is missing. *)
Definition fromJson (v : Json.Value) : option (AccountKey * Account) :=
  match Json.member "name" v, Json.member "balance" v, Json.member "rate" v with
  | Json.stringValue n, Json.intValue b, Json.intValue r =>
      Some (Key.ofString n, mkAccount b 0 r)
  | _, _, _ => None
  end.

Definition decode (body : Json.Body) : option (AccountKey * Account) :=
  Json.parse body ≫= fromJson.

(** insert-if-absent *)
Definition addFromJsonString (body : Json.Body) (s : t) : t * bool :=
  match decode body with
  | None => (s, false)
  | Some (key, a) =>
      match accounts s !! key with
      | Some _ => (s, true)
      | None => (mk (<[key := a]> (accounts s)) (spendRate s), true)
      end
  end.

(** unconditional overwrite *)
Definition replaceFromJsonString (body : Json.Body) (s : t) : t * bool :=
  match decode body with
  | None => (s, false)
  | Some (key, a) => (mk (<[key := a]> (accounts s)) (spendRate s), true)
  end.

(** The spend snapshot of one account in the spend-update payload. *)
Definition toJson (key : AccountKey) (a : Account) : Json.Value :=
  Json.objectValue
    [("accumulatedSpend", Json.intValue (accumulatedSpend a));
     ("name", Json.stringValue (Key.toString key))].

End Accounts.

(** ** Outputs of the banker: telemetry and HTTP requests *)

(** The completion callbacks handed to the HTTP client; [onAddAccount] and
    [onReplaceAccount] capture their key by value. *)
Inductive Callback : Type :=
| onAddAccount (key : AccountKey)
| onReplaceAccount (key : AccountKey)
| onSpendUpdate
| onReauthorize
| onSetRate.

#[global] Instance Callback_eq_dec : EqDecision Callback.
Proof. solve_decision. Defined.

(** [recordLatency] stands for the [recordLevel] of a wall-clock latency,
    whose value is not modelled. *)
Inductive Effect : Type :=
| recordHit (name : string)
| recordCount (value : Z) (name : string)
| recordLevel (value : Z) (name : string)
| recordLatency (name : string)
| post (resource : string) (cb : Callback) (payload : Json.Value)
| get (resource : string) (cb : Callback).

(** The requests among the outputs, as (resource, callback) pairs. *)
Definition request (e : Effect) : option (string * Callback) :=
  match e with
  | post resource cb _ => Some (resource, cb)
  | get resource cb => Some (resource, cb)
  | _ => None
  end.

Definition requests (out : list Effect) : list (string * Callback) :=
  omap request out.

(** The requests among the outputs, payload included. *)
Definition isRequest (e : Effect) : bool :=
  match e with
  | post _ _ _ | get _ _ => true
  | _ => false
  end.

Definition sent (out : list Effect) : list Effect :=
  filter (λ e, isRequest e) out.

Definition hits (out : list Effect) : list string :=
  omap (λ e, match e with recordHit name => Some name | _ => None end) out.

(** ** The banker object *)

Inductive GoAccountType : Type := ROUTER | POST_AUCTION.

Record LocalBanker : Type := mkLocalBanker {
  type : GoAccountType;
  accountSuffix : string;
  accountSuffixNoDot : string;
  accounts : Accounts.t;
  spendRate : Z;
  uninitializedAccounts : gset AccountKey;
  reauthorizeInProgress : bool;
  reauthorizeSkipped : Z;
  spendUpdateInProgress : bool;
  spendUpdateSkipped : Z;
  debug : bool
}.

Record HttpResponse : Type := mkResponse {
  status : Z;
  body : Json.Body
}.

(** Field updates of the banker object. *)
Definition set_accounts (v : Accounts.t) (b : LocalBanker) : LocalBanker :=
  mkLocalBanker (type b) (accountSuffix b) (accountSuffixNoDot b) v (spendRate b)
    (uninitializedAccounts b) (reauthorizeInProgress b) (reauthorizeSkipped b)
    (spendUpdateInProgress b) (spendUpdateSkipped b) (debug b).

Definition set_spendRate (v : Z) (b : LocalBanker) : LocalBanker :=
  mkLocalBanker (type b) (accountSuffix b) (accountSuffixNoDot b) (accounts b) v
    (uninitializedAccounts b) (reauthorizeInProgress b) (reauthorizeSkipped b)
    (spendUpdateInProgress b) (spendUpdateSkipped b) (debug b).

Definition set_uninitializedAccounts (v : gset AccountKey) (b : LocalBanker) : LocalBanker :=
  mkLocalBanker (type b) (accountSuffix b) (accountSuffixNoDot b) (accounts b) (spendRate b)
    v (reauthorizeInProgress b) (reauthorizeSkipped b)
    (spendUpdateInProgress b) (spendUpdateSkipped b) (debug b).

Definition set_reauthorizeInProgress (v : bool) (b : LocalBanker) : LocalBanker :=
  mkLocalBanker (type b) (accountSuffix b) (accountSuffixNoDot b) (accounts b) (spendRate b)
    (uninitializedAccounts b) v (reauthorizeSkipped b)
    (spendUpdateInProgress b) (spendUpdateSkipped b) (debug b).

Definition set_reauthorizeSkipped (v : Z) (b : LocalBanker) : LocalBanker :=
  mkLocalBanker (type b) (accountSuffix b) (accountSuffixNoDot b) (accounts b) (spendRate b)
    (uninitializedAccounts b) (reauthorizeInProgress b) v
    (spendUpdateInProgress b) (spendUpdateSkipped b) (debug b).

Definition set_spendUpdateInProgress (v : bool) (b : LocalBanker) : LocalBanker :=
  mkLocalBanker (type b) (accountSuffix b) (accountSuffixNoDot b) (accounts b) (spendRate b)
    (uninitializedAccounts b) (reauthorizeInProgress b) (reauthorizeSkipped b)
    v (spendUpdateSkipped b) (debug b).

Definition set_spendUpdateSkipped (v : Z) (b : LocalBanker) : LocalBanker :=
  mkLocalBanker (type b) (accountSuffix b) (accountSuffixNoDot b) (accounts b) (spendRate b)
    (uninitializedAccounts b) (reauthorizeInProgress b) (reauthorizeSkipped b)
    (spendUpdateInProgress b) v (debug b).

Definition set_debug (v : bool) (b : LocalBanker) : LocalBanker :=
  mkLocalBanker (type b) (accountSuffix b) (accountSuffixNoDot b) (accounts b) (spendRate b)
    (uninitializedAccounts b) (reauthorizeInProgress b) (reauthorizeSkipped b)
    (spendUpdateInProgress b) (spendUpdateSkipped b) v.

(** ** Commands: state passing with an output log *)

Definition Cmd (A : Type) : Type := LocalBanker → A * LocalBanker * list Effect.

Definition value {A} (r : A * LocalBanker * list Effect) : A := r.1.1.
Definition state {A} (r : A * LocalBanker * list Effect) : LocalBanker := r.1.2.
Definition output {A} (r : A * LocalBanker * list Effect) : list Effect := r.2.

#[global] Instance Cmd_ret : MRet Cmd := λ A a st, (a, st, []).

#[global] Instance Cmd_bind : MBind Cmd := λ A B k c st,
  let r1 := c st in
  let r2 := k (value r1) (state r1) in
  (value r2, state r2, output r1 ++ output r2).

Definition getState : Cmd LocalBanker := λ st, (st, st, []).
Definition modify (f : LocalBanker → LocalBanker) : Cmd unit := λ st, (tt, f st, []).
Definition emit (e : Effect) : Cmd unit := λ st, (tt, st, [e]).

Fixpoint forEach {A} (l : list A) (loopBody : A → Cmd unit) : Cmd unit :=
  match l with
  | [] => mret tt
  | x :: rest => loopBody x;; forEach rest loopBody
  end.

(** The state and the output of running a command. *)
Definition exec {A} (c : Cmd A) (st : LocalBanker) : LocalBanker := state (c st).
Definition out {A} (c : Cmd A) (st : LocalBanker) : list Effect := output (c st).

(** ** Construction and settings *)

(** [std::replace(s.begin(), s.end(), '.', '_')] *)
Fixpoint replaceDots (s : string) : string :=
  match s with
  | EmptyString => EmptyString
  | String c rest =>
      String (if decide (c = "."%char) then "_"%char else c) (replaceDots rest)
  end.

(** The constructor.  The store starts without accounts; the rate of the
    default-constructed store is not visible in the source file and is
    taken as 0 until [setSpendRate]. *)
Definition LocalBanker_new (type : GoAccountType) (accountSuffix : string) : LocalBanker :=
  {| type := type;
     accountSuffix := accountSuffix;
     accountSuffixNoDot := replaceDots accountSuffix;
     accounts := Accounts.mk ∅ 0;
     spendRate := 100000;
     uninitializedAccounts := ∅;
     reauthorizeInProgress := false;
     reauthorizeSkipped := 0;
     spendUpdateInProgress := false;
     spendUpdateSkipped := 0;
     debug := false |}.

Definition setSpendRate (newSpendRate : Z) : Cmd unit :=
  modify (set_spendRate newSpendRate);;
  modify (λ b, set_accounts (Accounts.setSpendRate (spendRate b) (accounts b)) b).

Definition setDebug (debugSetting : bool) : Cmd unit :=
  modify (set_debug debugSetting).

(** ** Lazy registration *)

Definition accountTypeTag (t : GoAccountType) : string :=
  match t with
  | ROUTER => "Router"
  | POST_AUCTION => "PostAuction"
  end.

(** [LocalBanker::addAccountImpl] *)
Definition addAccountImpl (key : AccountKey) : Cmd unit :=
  b ← getState;
  if Accounts.exists_ key (accounts b) then
    modify (λ b, set_uninitializedAccounts (uninitializedAccounts b ∖ {[key]}) b)
  else
    modify (λ b, set_uninitializedAccounts ({[key]} ∪ uninitializedAccounts b) b);;
    emit (recordHit "addAccount.attempts");;
    emit (post "/accounts" (onAddAccount key)
            (Json.objectValue
               [("accountName", Json.stringValue (Key.toString key));
                ("accountType", Json.stringValue (accountTypeTag (type b)))])).

(** [LocalBanker::addAccount] *)
Definition fullKey (key : AccountKey) (b : LocalBanker) : AccountKey :=
  Key.ofString (Key.toString key +:+ ":" +:+ accountSuffix b).

Definition addAccount (key : AccountKey) : Cmd unit :=
  b ← getState;
  addAccountImpl (fullKey key b).

(** The response callback of [addAccountImpl]. *)
Definition addAccountImpl_onResponse (key : AccountKey) (r : HttpResponse) : Cmd unit :=
  emit (recordLatency "addAccountLatencyMs");;
  if bool_decide (status r ≠ 200) then
    emit (recordHit "addAccount.failure")
  else
    b ← getState;
    let res := Accounts.addFromJsonString (body r) (accounts b) in
    modify (set_accounts res.1);;
    modify (λ b, set_uninitializedAccounts (uninitializedAccounts b ∖ {[key]}) b);;
    (if negb res.2 then emit (recordHit "addAccount.error") else mret tt);;
    emit (recordHit "addAccount.success").

(** The periodic sweep [initializeAccountsPeriodic] installed by [init]. *)
Definition initializeAccountsPeriodic : Cmd unit :=
  b ← getState;
  let tempUninitialized := uninitializedAccounts b in
  modify (set_uninitializedAccounts ∅);;
  emit (recordCount (Z.of_nat (size (Accounts.accounts (accounts b)))) "accounts");;
  forEach (elements tempUninitialized) addAccountImpl.

(** ** Replace on desync *)

(** [LocalBanker::replaceAccount] *)
Definition replaceAccount (key : AccountKey) : Cmd unit :=
  emit (recordHit "updateOutOfSync.attempts");;
  emit (get ("/accounts/" +:+ Key.toString key) (onReplaceAccount key)).

Definition replaceAccount_onResponse (key : AccountKey) (r : HttpResponse) : Cmd unit :=
  emit (recordLatency "addAccountLatencyMs");;
  if bool_decide (status r ≠ 200) then
    emit (recordHit "updateOutOfSync.failure")
  else
    b ← getState;
    let res := Accounts.replaceFromJsonString (body r) (accounts b) in
    modify (set_accounts res.1);;
    (if negb res.2 then emit (recordHit "replaceAccount.error") else mret tt);;
    emit (recordHit "updateOutOfSync.success").

(** ** Spend update *)

(** The request body: the snapshot of every account of the store. *)
Definition spendUpdate_payload (b : LocalBanker) : Json.Value :=
  Json.arrayValue
    ((λ kv, Accounts.toJson kv.1 kv.2) <$> map_to_list (Accounts.accounts (accounts b))).

(** [LocalBanker::spendUpdate], the timer tick. *)
Definition spendUpdate : Cmd unit :=
  b ← getState;
  proceed ←
    (if spendUpdateInProgress b then
       emit (recordHit "spendUpdate.inProgress");;
       modify (set_spendUpdateSkipped (spendUpdateSkipped b + 1));;
       if bool_decide (spendUpdateSkipped b + 1 > 3) then
         emit (recordHit "spendUpdate.forceRetry");; mret true
       else mret false
     else mret true);
  if proceed : bool then
    modify (set_spendUpdateInProgress true);;
    modify (set_spendUpdateSkipped 0);;
    emit (recordHit "spendUpdate.attempt");;
    b ← getState;
    emit (post "/spendupdate" onSpendUpdate (spendUpdate_payload b))
  else mret tt.

(** The loop body of the spend-update callback. *)
Definition spendUpdate_entry (entry : string * Json.Value) : Cmd unit :=
  let key := entry.1 in
  let value := Json.asString entry.2 in
  if bool_decide (value ≠ "no need") && bool_decide (value ≠ "success") then
    replaceAccount (Key.ofString key)
  else mret tt.

Definition spendUpdate_onResponse (r : HttpResponse) : Cmd unit :=
  modify (set_spendUpdateInProgress false);;
  emit (recordLatency "spendUpdateLatencyMs");;
  if bool_decide (status r ≠ 200) then
    emit (recordHit "spendUpdate.failure")
  else
    match Json.parse (body r) with
    | None => emit (recordHit "spendUpdate.jsonParsingError")
    | Some result =>
        forEach (Json.entries result) spendUpdate_entry;;
        emit (recordHit "spendUpdate.success")
    end.

(** ** Reauthorize *)

(** [LocalBanker::setRate] *)
Definition setRate (key : AccountKey) : Cmd unit :=
  emit (recordHit "setRate.attempt");;
  b ← getState;
  emit (post ("/accounts/" +:+ Key.toString key +:+ "/rate") onSetRate
          (Json.objectValue [("USD/1M", Json.intValue (spendRate b))])).

Definition setRate_onResponse (r : HttpResponse) : Cmd unit :=
  emit (recordLatency "setRateLatencyMs");;
  if bool_decide (status r ≠ 200) then
    emit (recordHit "setRate.failure")
  else
    emit (recordHit "setRate.success").

(** The request body: the name of every account of the store. *)
Definition reauthorize_payload (b : LocalBanker) : Json.Value :=
  Json.arrayValue
    ((λ kv, Json.stringValue (Key.toString kv.1))
       <$> map_to_list (Accounts.accounts (accounts b))).

(** [LocalBanker::reauthorize], the timer tick. *)
Definition reauthorize : Cmd unit :=
  b ← getState;
  proceed ←
    (if reauthorizeInProgress b then
       emit (recordHit "reauthorize.inProgress");;
       modify (set_reauthorizeSkipped (reauthorizeSkipped b + 1));;
       if bool_decide (reauthorizeSkipped b + 1 > 3) then
         emit (recordHit "reauthorize.forceRetry");; mret true
       else mret false
     else mret true);
  if proceed : bool then
    modify (set_reauthorizeInProgress true);;
    modify (set_reauthorizeSkipped 0);;
    emit (recordHit "reauthorize.attempt");;
    b ← getState;
    emit (post "/reauthorize/1" onReauthorize (reauthorize_payload b))
  else mret tt.

(** The loop body of the reauthorize callback. *)
Definition reauthorize_record (jsonAccount : Json.Value) : Cmd unit :=
  b ← getState;
  let key := Key.ofString (Json.asString (Json.member "name" jsonAccount)) in
  let newBalance := Json.asInt (Json.member "balance" jsonAccount) in
  let gKey := "account." +:+ Key.toString key +:+ ":" +:+ accountSuffixNoDot b in
  (if debug b then
     emit (recordLevel
             (Accounts.getBalance
                (Key.ofString (Key.toString key +:+ ":" +:+ accountSuffix b))
                (accounts b))
             (gKey +:+ ".oldBalance"));;
     emit (recordLevel newBalance (gKey +:+ ".newBalance"))
   else mret tt);;
  let res := Accounts.accumulateBalance key newBalance (accounts b) in
  modify (set_accounts res.1);;
  emit (recordLevel res.2 (gKey +:+ ".bidAmount"));;
  let rate := Json.asInt (Json.member "rate" jsonAccount) in
  if bool_decide (rate > spendRate b) then setRate key else mret tt.

Definition reauthorize_onResponse (r : HttpResponse) : Cmd unit :=
  modify (set_reauthorizeInProgress false);;
  emit (recordLatency "reauthorizeLatencyMs");;
  if bool_decide (status r ≠ 200) then
    emit (recordHit "reauthorize.failure")
  else
    match Json.parse (body r) with
    | None => emit (recordHit "reautorize.jsonParsingError")
    | Some jsonAccounts =>
        forEach (Json.elements jsonAccounts) reauthorize_record;;
        emit (recordHit "reauthorize.success")
    end.

(** The fields of one record of the reauthorize response, as the loop body
    reads them. *)
Definition record_key (jsonAccount : Json.Value) : AccountKey :=
  Key.ofString (Json.asString (Json.member "name" jsonAccount)).

Definition record_balance (jsonAccount : Json.Value) : Z :=
  Json.asInt (Json.member "balance" jsonAccount).

Definition record_rate (jsonAccount : Json.Value) : Z :=
  Json.asInt (Json.member "rate" jsonAccount).

(** Delivery of a response to the callback it was issued with. *)
Definition onResponse (cb : Callback) (r : HttpResponse) : Cmd unit :=
  match cb with
  | onAddAccount key => addAccountImpl_onResponse key r
  | onReplaceAccount key => replaceAccount_onResponse key r
  | onSpendUpdate => spendUpdate_onResponse r
  | onReauthorize => reauthorize_onResponse r
  | onSetRate => setRate_onResponse r
  end.

(** ** The banker with its requests in flight *)

(** The requests whose response has not been delivered yet, oldest first. *)
Record System : Type := mkSystem {
  banker : LocalBanker;
  outstanding : list (string * Callback)
}.

Inductive Event : Type :=
| tick_reauthorize
| tick_spendUpdate
| tick_uninitializedAccounts
| call_addAccount (key : AccountKey)
| deliver (i : nat) (r : HttpResponse).

(** Running a command of the banker: its requests join the ones in flight. *)
Definition run (c : Cmd unit) (s : System) : System * list Effect :=
  (mkSystem (exec c (banker s)) (outstanding s ++ requests (out c (banker s))),
   out c (banker s)).

(** [deliver i r] completes the [i]-th request in flight with response [r];
    it does nothing when there is no such request. *)
Definition step (e : Event) (s : System) : System * list Effect :=
  match e with
  | tick_reauthorize => run reauthorize s
  | tick_spendUpdate => run spendUpdate s
  | tick_uninitializedAccounts => run initializeAccountsPeriodic s
  | call_addAccount key => run (addAccount key) s
  | deliver i r =>
      match outstanding s !! i with
      | Some (_, cb) => run (onResponse cb r) (mkSystem (banker s) (delete i (outstanding s)))
      | None => (s, [])
      end
  end.

Fixpoint steps (evs : list Event) (s : System) : System * list Effect :=
  match evs with
  | [] => (s, [])
  | e :: rest =>
      let r1 := step e s in
      let r2 := steps rest r1.1 in
      (r2.1, r1.2 ++ r2.2)
  end.

(** How many requests with callback [cb] are in flight. *)
Definition inFlight (cb : Callback) (s : System) : nat :=
  length (filter (λ q, q.2 = cb) (outstanding s)).

(** The outputs of [n] consecutive runs of a timer callback, one list per
    tick, and the banker after them. *)
Fixpoint ticks (tick : Cmd unit) (n : nat) (b : LocalBanker) : list (list Effect) :=
  match n with
  | O => []
  | S m => out tick b :: ticks tick m (exec tick b)
  end.


(** ** Vocabulary of the statements *)

(** The system after one more run of a timer callback. *)
Definition nextTick (tick : Cmd unit) (s : System) : System := (run tick s).1.

(** The rate update of one record, if its rate asks for one. *)
Definition rateUpdate (b : LocalBanker) (jsonAccount : Json.Value) : list Effect :=
  if bool_decide (record_rate jsonAccount > spendRate b) then
    [post ("/accounts/" +:+ Json.asString (Json.member "name" jsonAccount) +:+ "/rate")
       onSetRate
       (Json.objectValue [("USD/1M", Json.intValue (spendRate b))])]
  else [].

(** The registration requests for [key] among the outputs. *)
Definition registrations (key : AccountKey) (o : list Effect) : nat :=
  length (filter (λ q, q = ("/accounts", onAddAccount key)) (requests o)).

(** [quiet key c]: run on a banker where [key] is not pending, [c] leaves it
    not pending, sends no registration request for it and keeps the
    instance suffix. *)
Definition quiet (key : AccountKey) {A} (c : Cmd A) : Prop :=
  ∀ b, key ∉ uninitializedAccounts b →
    accountSuffix (exec c b) = accountSuffix b
    ∧ (key ∉ uninitializedAccounts (exec c b))
    ∧ (("/accounts", onAddAccount key) ∉ requests (out c b)).

(** An event that is not a call of [addAccount] for the key itself. *)
Definition otherThanAdding (suffix : string) (key : AccountKey) (e : Event) : Prop :=
  ∀ key0, e = call_addAccount key0 →
    Key.ofString (Key.toString key0 +:+ ":" +:+ suffix) ≠ key.

(** The course of events after a forced retry: five ticks from [s], the
    response [r] to the [i]-th request in flight, one more tick. *)
Definition racingResponses (tickEvent : Event) (cb : Callback) (resource : string)
    (inProgress : LocalBanker → bool) (skipHit : string)
    (s : System) (i : nat) (r : HttpResponse) : Prop :=
  let s5 := (steps (replicate 5 tickEvent) s).1 in
  let s6 := (step (deliver i r) s5).1 in
  let t := step tickEvent s6 in
  inProgress (banker s5) = true
  ∧ inFlight cb s5 = 2%nat
  ∧ inProgress (banker s6) = false
  ∧ inFlight cb s6 = 1%nat
  ∧ (skipHit ∉ hits t.2)
  ∧ requests t.2 = [(resource, cb)]
  ∧ inFlight cb t.1 = 2%nat.

(** ** The hot path *)

Section HotPath.

(** [accounts.bid] and [accounts.win]: the decisions of the store, which
    is not part of the source file, are parameters here. *)
Variable Accounts_bid : AccountKey → Z → Accounts.t → Accounts.t * bool.
Variable Accounts_win : AccountKey → Z → Accounts.t → Accounts.t * bool.

(** [LocalBanker::bid] *)
Definition bid (key : AccountKey) (bidPrice : Z) : Cmd bool :=
  b ← getState;
  let res :=
    Accounts_bid (Key.ofString (Key.toString key +:+ ":" +:+ accountSuffix b))
      bidPrice (accounts b) in
  modify (set_accounts res.1);;
  let canBid := res.2 in
  (if canBid then emit (recordHit "Bid") else emit (recordHit "noBid"));;
  (if debug b then
     if canBid then
       emit (recordHit ("account." +:+ Key.toString key +:+ ":"
                        +:+ accountSuffixNoDot b +:+ ".Bid"))
     else
       emit (recordHit ("account." +:+ Key.toString key +:+ ":"
                        +:+ accountSuffixNoDot b +:+ ".noBid"))
   else mret tt);;
  mret canBid.

(** [LocalBanker::win] *)
Definition win (key : AccountKey) (winPrice : Z) : Cmd bool :=
  b ← getState;
  let res :=
    Accounts_win (Key.ofString (Key.toString key +:+ ":" +:+ accountSuffix b))
      winPrice (accounts b) in
  modify (set_accounts res.1);;
  let winAccounted := res.2 in
  (if winAccounted then emit (recordHit "Win") else emit (recordHit "noWin"));;
  (if debug b then
     if winAccounted then
       emit (recordHit ("account." +:+ Key.toString key +:+ ":"
                        +:+ accountSuffixNoDot b +:+ ".Win"))
     else
       emit (recordHit ("account." +:+ Key.toString key +:+ ":"
                        +:+ accountSuffixNoDot b +:+ ".noWin"))
   else mret tt);;
  mret winAccounted.

End HotPath.

(** ** Periodic tasks *)

(** One [addPeriodic] of [LocalBanker::init]: its name, its interval in
    milliseconds (the source gives seconds, 1.0 and 0.5) and the timer
    event that runs its callback. *)
Record Periodic : Type := mkPeriodic {
  periodicName : string;
  intervalMs : Z;
  wakeup : Event
}.

(** [LocalBanker::init]: the periodic tasks it installs. *)
Definition init (b : LocalBanker) : list Periodic :=
  (match type b with
   | ROUTER => [mkPeriodic "localBanker::reauthorize" 1000 tick_reauthorize]
   | POST_AUCTION => []
   end)
  ++ (match type b with
      | POST_AUCTION => [mkPeriodic "localBanker::spendUpdate" 500 tick_spendUpdate]
      | ROUTER => []
      end)
  ++ [mkPeriodic "uninitializedAccounts" 1000 tick_uninitializedAccounts].

(** A timer event is scheduled when [init] has installed it; calls and
    responses are not timer events. *)
Definition scheduled (b : LocalBanker) (e : Event) : Prop :=
  match e with
  | call_addAccount _ | deliver _ _ => True
  | _ => e ∈ wakeup <$> init b
  end.

(** ** Vocabulary of the further statements *)

(** [c] leaves the component [f] of the banker as it is. *)
Definition preserves {X A} (f : LocalBanker → X) (c : Cmd A) : Prop :=
  ∀ b, f (exec c b) = f b.

(** Every request [c] sends satisfies [Q]. *)
Definition sendsOnly {A} (Q : string * Callback → Prop) (c : Cmd A) : Prop :=
  ∀ b, Forall Q (requests (out c b)).

(** The settings of a banker: what the constructor, [setSpendRate] and
    [setDebug] fix. *)
Definition settings (b : LocalBanker)
    : GoAccountType * string * string * Z * bool :=
  (type b, accountSuffix b, accountSuffixNoDot b, spendRate b, debug b).

(** The guard of a protocol: its flag and its skip counter. *)
Definition reauthorizeGuard (b : LocalBanker) : bool * Z :=
  (reauthorizeInProgress b, reauthorizeSkipped b).

Definition spendUpdateGuard (b : LocalBanker) : bool * Z :=
  (spendUpdateInProgress b, spendUpdateSkipped b).

(** The events by kind. *)
Definition isDelivery (e : Event) : bool :=
  match e with deliver _ _ => true | _ => false end.

(** The callback a delivery runs, if the event is one that finds a request. *)
Definition delivered (e : Event) (s : System) : option Callback :=
  match e with
  | deliver i _ => snd <$> outstanding s !! i
  | _ => None
  end.

(** How often an event occurs in a trace. *)
Definition occurrences (P : Event → bool) (evs : list Event) : nat :=
  length (filter (λ e, P e) evs).

Definition isReauthorizeTick (e : Event) : bool :=
  match e with tick_reauthorize => true | _ => false end.

Definition isSpendUpdateTick (e : Event) : bool :=
  match e with tick_spendUpdate => true | _ => false end.

(** Has the character [c] a place in [s]? *)
Fixpoint occurs (c : ascii) (s : string) : bool :=
  match s with
  | EmptyString => false
  | String c' rest => if decide (c' = c) then true else occurs c rest
  end.

(** The callbacks that write to the account store, and the events that
    run one of them. *)
Definition writesStore (cb : Callback) : bool :=
  match cb with
  | onAddAccount _ | onReplaceAccount _ | onReauthorize => true
  | onSpendUpdate | onSetRate => false
  end.

Definition mayWriteStore (e : Event) (s : System) : bool :=
  match delivered e s with
  | Some cb => writesStore cb
  | None => false
  end.

(** The events that work on the pending-registration set. *)
Definition mayWritePending (e : Event) (s : System) : bool :=
  match e with
  | call_addAccount _ | tick_uninitializedAccounts => true
  | tick_reauthorize | tick_spendUpdate => false
  | deliver _ _ =>
      match delivered e s with
      | Some (onAddAccount _) => true
      | _ => false
      end
  end.

(** * Properties *)

(** ** Keys *)

Example key_of_string :
  Key.ofString "camp1:strategy1:router" = ["camp1"; "strategy1"; "router"].
Proof. reflexivity. Qed.

Example key_to_string :
  Key.toString ["camp1"; "strategy1"; "router"] = "camp1:strategy1:router".
Proof. reflexivity. Qed.

(** ** The overlap guard of the two periodic protocols *)

Section OverlapGuard.

Variable b : LocalBanker.

(** The three ways a tick of [reauthorize] can go. *)
Lemma reauthorize_idle :
  reauthorizeInProgress b = false →
  reauthorize b =
    (tt, set_reauthorizeSkipped 0 (set_reauthorizeInProgress true b),
     [recordHit "reauthorize.attempt";
      post "/reauthorize/1" onReauthorize (reauthorize_payload b)]).
Proof.
  intros Hflag. unfold reauthorize, mbind, Cmd_bind, getState; cbn. by rewrite Hflag.
Qed.

Lemma reauthorize_skip :
  reauthorizeInProgress b = true →
  reauthorizeSkipped b + 1 ≤ 3 →
  reauthorize b =
    (tt, set_reauthorizeSkipped (reauthorizeSkipped b + 1) b,
     [recordHit "reauthorize.inProgress"]).
Proof.
  intros Hflag Hle. unfold reauthorize, mbind, Cmd_bind, getState; cbn.
  rewrite Hflag; cbn. rewrite bool_decide_eq_false_2 by lia. done.
Qed.

Lemma reauthorize_force :
  reauthorizeInProgress b = true →
  reauthorizeSkipped b + 1 > 3 →
  reauthorize b =
    (tt, set_reauthorizeSkipped 0 (set_reauthorizeInProgress true b),
     [recordHit "reauthorize.inProgress"; recordHit "reauthorize.forceRetry";
      recordHit "reauthorize.attempt";
      post "/reauthorize/1" onReauthorize (reauthorize_payload b)]).
Proof.
  intros Hflag Hgt. unfold reauthorize, mbind, Cmd_bind, getState; cbn.
  rewrite Hflag; cbn. rewrite bool_decide_eq_true_2 by lia. done.
Qed.

(** The same three cases for [spendUpdate]. *)
Lemma spendUpdate_idle :
  spendUpdateInProgress b = false →
  spendUpdate b =
    (tt, set_spendUpdateSkipped 0 (set_spendUpdateInProgress true b),
     [recordHit "spendUpdate.attempt";
      post "/spendupdate" onSpendUpdate (spendUpdate_payload b)]).
Proof.
  intros Hflag. unfold spendUpdate, mbind, Cmd_bind, getState; cbn. by rewrite Hflag.
Qed.

Lemma spendUpdate_skip :
  spendUpdateInProgress b = true →
  spendUpdateSkipped b + 1 ≤ 3 →
  spendUpdate b =
    (tt, set_spendUpdateSkipped (spendUpdateSkipped b + 1) b,
     [recordHit "spendUpdate.inProgress"]).
Proof.
  intros Hflag Hle. unfold spendUpdate, mbind, Cmd_bind, getState; cbn.
  rewrite Hflag; cbn. rewrite bool_decide_eq_false_2 by lia. done.
Qed.

Lemma spendUpdate_force :
  spendUpdateInProgress b = true →
  spendUpdateSkipped b + 1 > 3 →
  spendUpdate b =
    (tt, set_spendUpdateSkipped 0 (set_spendUpdateInProgress true b),
     [recordHit "spendUpdate.inProgress"; recordHit "spendUpdate.forceRetry";
      recordHit "spendUpdate.attempt";
      post "/spendupdate" onSpendUpdate (spendUpdate_payload b)]).
Proof.
  intros Hflag Hgt. unfold spendUpdate, mbind, Cmd_bind, getState; cbn.
  rewrite Hflag; cbn. rewrite bool_decide_eq_true_2 by lia. done.
Qed.

(** The skip counters stay between 0 and 3, whatever their machine
    width. *)
Lemma reauthorizeSkipped_bounded :
  0 ≤ reauthorizeSkipped b ≤ 3 →
  0 ≤ reauthorizeSkipped (exec reauthorize b) ≤ 3.
Proof.
  intros Hb. unfold exec, state. destruct (reauthorizeInProgress b) eqn:Hflag.
  - destruct (decide (reauthorizeSkipped b + 1 ≤ 3)).
    + rewrite reauthorize_skip by done. cbn. lia.
    + rewrite reauthorize_force by (done || lia). cbn. lia.
  - rewrite reauthorize_idle by done. cbn. lia.
Qed.

Lemma spendUpdateSkipped_bounded :
  0 ≤ spendUpdateSkipped b ≤ 3 →
  0 ≤ spendUpdateSkipped (exec spendUpdate b) ≤ 3.
Proof.
  intros Hb. unfold exec, state. destruct (spendUpdateInProgress b) eqn:Hflag.
  - destruct (decide (spendUpdateSkipped b + 1 ≤ 3)).
    + rewrite spendUpdate_skip by done. cbn. lia.
    + rewrite spendUpdate_force by (done || lia). cbn. lia.
  - rewrite spendUpdate_idle by done. cbn. lia.
Qed.

End OverlapGuard.





(** ** Failed responses *)

Section FailedResponses.

Variable b : LocalBanker.
Variable r : HttpResponse.

Lemma reauthorize_onResponse_failure :
  status r ≠ 200 →
  reauthorize_onResponse r b =
    (tt, set_reauthorizeInProgress false b,
     [recordLatency "reauthorizeLatencyMs"; recordHit "reauthorize.failure"]).
Proof.
  intros Hst. unfold reauthorize_onResponse, mbind, Cmd_bind; cbn.
  by rewrite bool_decide_eq_true_2.
Qed.

Lemma spendUpdate_onResponse_failure :
  status r ≠ 200 →
  spendUpdate_onResponse r b =
    (tt, set_spendUpdateInProgress false b,
     [recordLatency "spendUpdateLatencyMs"; recordHit "spendUpdate.failure"]).
Proof.
  intros Hst. unfold spendUpdate_onResponse, mbind, Cmd_bind; cbn.
  by rewrite bool_decide_eq_true_2.
Qed.

Lemma reauthorize_onResponse_garbled :
  status r = 200 →
  Json.parse (body r) = None →
  reauthorize_onResponse r b =
    (tt, set_reauthorizeInProgress false b,
     [recordLatency "reauthorizeLatencyMs"; recordHit "reautorize.jsonParsingError"]).
Proof.
  intros Hst Hparse. unfold reauthorize_onResponse, mbind, Cmd_bind; cbn.
  rewrite bool_decide_eq_false_2 by (intros ?; done). by rewrite Hparse.
Qed.

Lemma spendUpdate_onResponse_garbled :
  status r = 200 →
  Json.parse (body r) = None →
  spendUpdate_onResponse r b =
    (tt, set_spendUpdateInProgress false b,
     [recordLatency "spendUpdateLatencyMs"; recordHit "spendUpdate.jsonParsingError"]).
Proof.
  intros Hst Hparse. unfold spendUpdate_onResponse, mbind, Cmd_bind; cbn.
  rewrite bool_decide_eq_false_2 by (intros ?; done). by rewrite Hparse.
Qed.

End FailedResponses.

(** C7.  A response with a status other than 200, to a reauthorize or to a
    spend-update request, changes neither the account store nor the
    pending-registration set: the handler only records the latency and the
    failure counter of its protocol and issues no request.  The local state,
    store and pending set, is the same before and after; of the whole banker
    object only the in-progress flag of the protocol differs, cleared as for
    every response. *)
Theorem transport_failure_leaves_state (b : LocalBanker) (r : HttpResponse) :
  status r ≠ 200 →
  (accounts (exec (reauthorize_onResponse r) b) = accounts b
   ∧ uninitializedAccounts (exec (reauthorize_onResponse r) b) = uninitializedAccounts b
   ∧ exec (reauthorize_onResponse r) b = set_reauthorizeInProgress false b
   ∧ out (reauthorize_onResponse r) b =
       [recordLatency "reauthorizeLatencyMs"; recordHit "reauthorize.failure"])
  ∧ (accounts (exec (spendUpdate_onResponse r) b) = accounts b
     ∧ uninitializedAccounts (exec (spendUpdate_onResponse r) b) = uninitializedAccounts b
     ∧ exec (spendUpdate_onResponse r) b = set_spendUpdateInProgress false b
     ∧ out (spendUpdate_onResponse r) b =
         [recordLatency "spendUpdateLatencyMs"; recordHit "spendUpdate.failure"]).
Proof.
  intros Hst. unfold exec, out, state, output.
  rewrite reauthorize_onResponse_failure, spendUpdate_onResponse_failure by done.
  by repeat split.
Qed.

Lemma transport_failure_leaves_state_witness :
  let b := LocalBanker_new ROUTER "router" in
  let r := mkResponse 503 (Json.garbled "Service Unavailable") in
  accounts (exec (reauthorize_onResponse r) b) = accounts b
  ∧ accounts (exec (spendUpdate_onResponse r) b) = accounts b.
Proof.
  intros b r.
  destruct (transport_failure_leaves_state b r ltac:(vm_compute; discriminate))
    as ((Hre & _) & (Hsp & _)).
  split; [exact Hre | exact Hsp].
Defined.

(** C8.  A 200 response whose body does not parse, to a reauthorize or to a
    spend-update request: the handler returns after recording the
    parse-failure counter of its protocol, which is not the counter a
    transport failure [r'] records; it issues no request and changes
    neither the account store nor the pending-registration set. *)
Theorem parse_failure_aborts (b : LocalBanker) (r r' : HttpResponse) :
  status r = 200 →
  Json.parse (body r) = None →
  status r' ≠ 200 →
  (out (reauthorize_onResponse r) b =
     [recordLatency "reauthorizeLatencyMs"; recordHit "reautorize.jsonParsingError"]
   ∧ hits (out (reauthorize_onResponse r) b) ≠ hits (out (reauthorize_onResponse r') b)
   ∧ exec (reauthorize_onResponse r) b = set_reauthorizeInProgress false b
   ∧ accounts (exec (reauthorize_onResponse r) b) = accounts b
   ∧ uninitializedAccounts (exec (reauthorize_onResponse r) b) = uninitializedAccounts b)
  ∧ (out (spendUpdate_onResponse r) b =
       [recordLatency "spendUpdateLatencyMs"; recordHit "spendUpdate.jsonParsingError"]
     ∧ hits (out (spendUpdate_onResponse r) b) ≠ hits (out (spendUpdate_onResponse r') b)
     ∧ exec (spendUpdate_onResponse r) b = set_spendUpdateInProgress false b
     ∧ accounts (exec (spendUpdate_onResponse r) b) = accounts b
     ∧ uninitializedAccounts (exec (spendUpdate_onResponse r) b) = uninitializedAccounts b).
Proof.
  intros Hst Hparse Hst'. unfold exec, out, state, output.
  rewrite (reauthorize_onResponse_garbled b r), (spendUpdate_onResponse_garbled b r) by done.
  rewrite (reauthorize_onResponse_failure b r'), (spendUpdate_onResponse_failure b r') by done.
  by repeat split.
Qed.

Lemma parse_failure_aborts_witness :
  let b := LocalBanker_new POST_AUCTION "pal" in
  let r := mkResponse 200 (Json.garbled "<html>") in
  out (reauthorize_onResponse r) b =
    [recordLatency "reauthorizeLatencyMs"; recordHit "reautorize.jsonParsingError"]
  ∧ out (spendUpdate_onResponse r) b =
      [recordLatency "spendUpdateLatencyMs"; recordHit "spendUpdate.jsonParsingError"].
Proof.
  intros b r.
  destruct (parse_failure_aborts b r (mkResponse 500 (Json.garbled ""))
              eq_refl eq_refl ltac:(vm_compute; discriminate))
    as ((Hre & _) & (Hsp & _)).
  split; [exact Hre | exact Hsp].
Defined.

(** ** Keys and commands: basic facts *)

Lemma split_nonempty val : Key.split val ≠ [].
Proof.
  destruct val as [|c rest]; cbn; [done|].
  case_decide; [done|]. by destruct (Key.split rest).
Qed.

Lemma toString_cons seg segs :
  segs ≠ [] → Key.toString (seg :: segs) = seg +:+ ":" +:+ Key.toString segs.
Proof. by destruct segs. Qed.

Lemma toString_split val : Key.toString (Key.split val) = val.
Proof.
  induction val as [|c rest IH]; cbn [Key.split]; [done|].
  case_decide as Hc.
  - rewrite toString_cons by apply split_nonempty. rewrite IH. by subst c.
  - pose proof (split_nonempty rest) as Hne.
    destruct (Key.split rest) as [|seg segs]; [done|].
    destruct segs as [|seg' segs].
    + cbn in *. by rewrite IH.
    + rewrite toString_cons by done. rewrite toString_cons in IH by done.
      cbn. by rewrite <- IH.
Qed.

(** A key built from a string renders as that string. *)
Lemma toString_ofString val : Key.toString (Key.ofString val) = val.
Proof. destruct val; [done|]. apply toString_split. Qed.

Lemma requests_app o1 o2 : requests (o1 ++ o2) = requests o1 ++ requests o2.
Proof. apply omap_app. Qed.

Lemma hits_app o1 o2 : hits (o1 ++ o2) = hits o1 ++ hits o2.
Proof. apply omap_app. Qed.

Lemma out_bind {A B} (c : Cmd A) (k : A → Cmd B) b :
  out (c ≫= k) b = out c b ++ out (k (value (c b))) (exec c b).
Proof. reflexivity. Qed.

Lemma exec_bind {A B} (c : Cmd A) (k : A → Cmd B) b :
  exec (c ≫= k) b = exec (k (value (c b))) (exec c b).
Proof. reflexivity. Qed.

(** A property of the banker that every iteration keeps is kept by the loop. *)
Lemma forEach_invariant {A} (P : LocalBanker → Prop) (f : A → Cmd unit) l b :
  (∀ x b', P b' → P (exec (f x) b')) → P b → P (exec (forEach l f) b).
Proof.
  intros Hstep. revert b.
  induction l as [|x l IH]; intros b Hb; [done|].
  cbn [forEach]. rewrite exec_bind. by apply IH, Hstep.
Qed.

(** The output of a loop whose iterations leave the banker as it is. *)
Lemma forEach_pure {A} (f : A → Cmd unit) l b :
  (∀ x, exec (f x) b = b) →
  exec (forEach l f) b = b ∧ out (forEach l f) b = concat ((λ x, out (f x) b) <$> l).
Proof.
  intros Hpure. induction l as [|x l [IHs IHo]]; [done|].
  cbn [forEach]. rewrite exec_bind, out_bind, !Hpure. cbn. by rewrite IHs, IHo.
Qed.

(** ** Spend-update responses *)

Lemma replaceAccount_run key b :
  replaceAccount key b =
    (tt, b, [recordHit "updateOutOfSync.attempts";
             get ("/accounts/" +:+ Key.toString key) (onReplaceAccount key)]).
Proof. reflexivity. Qed.

Lemma spendUpdate_entry_state entry b : exec (spendUpdate_entry entry) b = b.
Proof. unfold spendUpdate_entry. by destruct (_ && _). Qed.

(** The replace-fetch of one entry of the response, if it asks for one. *)
Lemma spendUpdate_entry_requests key v b :
  requests (out (spendUpdate_entry (key, v)) b) =
    if decide (Json.asString v ≠ "no need" ∧ Json.asString v ≠ "success")
    then [("/accounts/" +:+ key, onReplaceAccount (Key.ofString key))]
    else [].
Proof.
  unfold spendUpdate_entry; cbn [fst snd].
  case_decide as Hst.
  - destruct Hst. rewrite !bool_decide_eq_true_2 by done. cbn [andb].
    unfold out, output. rewrite replaceAccount_run, toString_ofString. done.
  - destruct (bool_decide_reflect (Json.asString v ≠ "no need"));
      destruct (bool_decide_reflect (Json.asString v ≠ "success")); cbn; tauto.
Qed.

Lemma spendUpdate_onResponse_success b r result :
  status r = 200 →
  Json.parse (body r) = Some result →
  exec (spendUpdate_onResponse r) b = set_spendUpdateInProgress false b
  ∧ out (spendUpdate_onResponse r) b =
      recordLatency "spendUpdateLatencyMs"
        :: concat ((λ e, out (spendUpdate_entry e) (set_spendUpdateInProgress false b))
                     <$> Json.entries result)
        ++ [recordHit "spendUpdate.success"].
Proof.
  intros Hst Hparse.
  destruct (forEach_pure spendUpdate_entry (Json.entries result)
              (set_spendUpdateInProgress false b)) as [Hs Ho];
    [intros; apply spendUpdate_entry_state|].
  unfold spendUpdate_onResponse.
  rewrite exec_bind, out_bind. cbn [modify out exec output state value fst snd app].
  rewrite exec_bind, out_bind. cbn [emit out exec output state value fst snd app].
  rewrite bool_decide_eq_false_2 by (intros ?; done). rewrite Hparse.
  rewrite exec_bind, out_bind, Hs, Ho. done.
Qed.

(** The replace-fetches of a successful spend-update response. *)
Lemma spendUpdate_onResponse_requests (b : LocalBanker) (r : HttpResponse)
    (result : Json.Value) :
  status r = 200 →
  Json.parse (body r) = Some result →
  requests (out (spendUpdate_onResponse r) b) =
    (λ e, ("/accounts/" +:+ e.1, onReplaceAccount (Key.ofString e.1)))
      <$> filter (λ e, Json.asString e.2 ≠ "no need" ∧ Json.asString e.2 ≠ "success")
            (Json.entries result).
Proof.
  intros Hst Hparse.
  destruct (spendUpdate_onResponse_success b r result Hst Hparse) as [_ ->].
  match goal with
  | |- requests (?e :: ?l) = _ => change (requests (e :: l)) with (requests l)
  end.
  rewrite requests_app, app_nil_r.
  induction (Json.entries result) as [|[key v] l IH]; [done|].
  rewrite fmap_cons, concat_cons, requests_app, IH, spendUpdate_entry_requests.
  rewrite filter_cons; cbn [fst snd]. by case_decide.
Qed.

(** The handler compares with "no need", not with "no-op": an entry with
    status "no-op" starts a replace-fetch, one with status "no need" starts
    none. *)
Lemma no_op_status_triggers_replace :
  let b := LocalBanker_new POST_AUCTION "router" in
  let r status :=
    mkResponse 200 (Json.document (Wire.statuses [("camp1:strategy1:router", status)])) in
  requests (out (spendUpdate_onResponse (r "no-op")) b) =
    [("/accounts/camp1:strategy1:router",
      onReplaceAccount ["camp1"; "strategy1"; "router"])]
  ∧ requests (out (spendUpdate_onResponse (r "no need")) b) = [].
Proof. split; reflexivity. Qed.

(** C3, amended.  In a successful spend-update response mapping account
    names to status strings, the entries that start the replace protocol
    are exactly those whose status is neither "no need" nor "success": one
    fetch each, in the order of the response, for the account the entry
    names; an entry with one of these two statuses starts none. *)
Theorem replace_iff_status_not_in_sync (b : LocalBanker) (r : HttpResponse)
    (statuses : list (string * string)) :
  status r = 200 →
  Json.parse (body r) = Some (Wire.statuses statuses) →
  requests (out (spendUpdate_onResponse r) b) =
    (λ e, ("/accounts/" +:+ e.1, onReplaceAccount (Key.ofString e.1)))
      <$> filter (λ e, e.2 ≠ "no need" ∧ e.2 ≠ "success") statuses.
Proof.
  intros Hst Hparse.
  rewrite (spendUpdate_onResponse_requests b r _ Hst Hparse). clear Hparse.
  cbn [Wire.statuses Json.entries].
  induction statuses as [|[key st] l IH]; [done|].
  rewrite fmap_cons, !filter_cons; cbn [fst snd Json.asString].
  case_decide; by rewrite ?fmap_cons, IH.
Qed.

Lemma replace_iff_status_not_in_sync_witness :
  let statuses := [("a:r", "success"); ("b:r", "out of sync"); ("c:r", "no need")] in
  requests
    (out (spendUpdate_onResponse (mkResponse 200 (Json.document (Wire.statuses statuses))))
       (LocalBanker_new POST_AUCTION "r")) =
    [("/accounts/b:r", onReplaceAccount ["b"; "r"])].
Proof.
  intros statuses.
  exact (replace_iff_status_not_in_sync (LocalBanker_new POST_AUCTION "r")
           (mkResponse 200 (Json.document (Wire.statuses statuses))) statuses
           eq_refl eq_refl).
Defined.

(** What a replace response does to the store: the account its body names
    is overwritten, every other account is left as it was. *)
Lemma replaceFromJsonString_other body s other :
  (∀ a, Accounts.decode body ≠ Some (other, a)) →
  Accounts.accounts (Accounts.replaceFromJsonString body s).1 !! other
  = Accounts.accounts s !! other.
Proof.
  intros Hother. unfold Accounts.replaceFromJsonString.
  destruct (Accounts.decode body) as [[key a]|] eqn:Hdec; cbn; [|done].
  apply lookup_insert_ne. intros ->. by apply (Hother a).
Qed.

Lemma replaceAccount_onResponse_other key r b other :
  (∀ a, Accounts.decode (body r) ≠ Some (other, a)) →
  Accounts.accounts (accounts (exec (replaceAccount_onResponse key r) b)) !! other
  = Accounts.accounts (accounts b) !! other.
Proof.
  intros Hother. unfold replaceAccount_onResponse.
  rewrite exec_bind; cbn [emit exec state value fst snd].
  case_bool_decide; [done|].
  rewrite !exec_bind; cbn [getState modify exec state value fst snd].
  destruct (negb _); cbn; by apply replaceFromJsonString_other.
Qed.

(** The fetch of the scenario goes to the account as named in the response,
    suffix included, not to "camp1:strategy1". *)
Lemma desync_fetch_keeps_suffix :
  let b := LocalBanker_new POST_AUCTION "router" in
  let r :=
    mkResponse 200
      (Json.document (Wire.statuses [("camp1:strategy1:router", "desync")])) in
  requests (out (spendUpdate_onResponse r) b) =
    [("/accounts/camp1:strategy1:router",
      onReplaceAccount ["camp1"; "strategy1"; "router"])]
  ∧ ¬ ∃ cb, requests (out (spendUpdate_onResponse r) b) =
            [("/accounts/camp1:strategy1", cb)].
Proof.
  split; [reflexivity|]. intros [cb Hcb]. vm_compute in Hcb. discriminate Hcb.
Qed.

(** C4, amended.  On any banker, the spend-update response
    [{"camp1:strategy1:router": "desync"}] starts exactly one replace-fetch,
    addressed to "camp1:strategy1:router" (the name as received, instance
    suffix included), and the handler changes no account of the store.  When
    the response [r'] to that fetch is processed, an account [other] that
    the body of [r'] does not name is left as it was. *)
Theorem desync_entry_fetches_named_account (b b' : LocalBanker) (r' : HttpResponse)
    (other : AccountKey) :
  (∀ a, Accounts.decode (body r') ≠ Some (other, a)) →
  let r :=
    mkResponse 200
      (Json.document (Wire.statuses [("camp1:strategy1:router", "desync")])) in
  let key := ["camp1"; "strategy1"; "router"] in
  requests (out (spendUpdate_onResponse r) b) =
    [("/accounts/camp1:strategy1:router", onReplaceAccount key)]
  ∧ accounts (exec (spendUpdate_onResponse r) b) = accounts b
  ∧ uninitializedAccounts (exec (spendUpdate_onResponse r) b) = uninitializedAccounts b
  ∧ Accounts.accounts (accounts (exec (replaceAccount_onResponse key r') b')) !! other
    = Accounts.accounts (accounts b') !! other.
Proof.
  intros Hother r key.
  split; [|split; [|split]].
  - by rewrite (spendUpdate_onResponse_requests b r _ eq_refl eq_refl).
  - by destruct (spendUpdate_onResponse_success b r _ eq_refl eq_refl) as [-> _].
  - by destruct (spendUpdate_onResponse_success b r _ eq_refl eq_refl) as [-> _].
  - by apply replaceAccount_onResponse_other.
Qed.

Lemma desync_entry_fetches_named_account_witness :
  let b := LocalBanker_new POST_AUCTION "router" in
  let r' :=
    mkResponse 200
      (Json.document
         (Json.objectValue
            [("name", Json.stringValue "camp1:strategy1:router");
             ("balance", Json.intValue 5000000);
             ("rate", Json.intValue 100000)])) in
  let key := ["camp1"; "strategy1"; "router"] in
  let other := ["camp2"; "strategy7"; "router"] in
  Accounts.accounts (accounts (exec (replaceAccount_onResponse key r') b)) !! other
  = Accounts.accounts (accounts b) !! other.
Proof.
  intros b r' key other.
  refine (proj2 (proj2 (proj2
            (desync_entry_fetches_named_account b b r' other _)))).
  intros a Hdec. vm_compute in Hdec. discriminate Hdec.
Defined.

(** ** The store under [accumulateBalance] *)

Lemma accumulateBalance_getBalance key newBalance s :
  Accounts.getBalance key (Accounts.accumulateBalance key newBalance s).1 = newBalance.
Proof.
  unfold Accounts.getBalance, Accounts.accumulateBalance.
  destruct (Accounts.accounts s !! key); cbn; by rewrite lookup_insert_eq.
Qed.

Lemma accumulateBalance_other key other newBalance s :
  other ≠ key →
  Accounts.accounts (Accounts.accumulateBalance key newBalance s).1 !! other
  = Accounts.accounts s !! other.
Proof.
  intros Hne. unfold Accounts.accumulateBalance.
  destruct (Accounts.accounts s !! key); cbn; by rewrite lookup_insert_ne.
Qed.

Lemma accumulateBalance_fold_other (js : list Json.Value) other s :
  (∀ j, j ∈ js → record_key j ≠ other) →
  Accounts.accounts
    (foldl (λ s j, (Accounts.accumulateBalance (record_key j) (record_balance j) s).1) s js)
    !! other
  = Accounts.accounts s !! other.
Proof.
  revert s. induction js as [|j js IH]; intros s Hother; [done|].
  cbn [foldl]. rewrite IH by (intros j' Hj'; by apply Hother, list_elem_of_further).
  apply accumulateBalance_other. intros ->. by apply (Hother j); [apply list_elem_of_here|].
Qed.

(** ** Reauthorize responses *)

Lemma sent_app o1 o2 : sent (o1 ++ o2) = sent o1 ++ sent o2.
Proof. apply filter_app. Qed.

Lemma reauthorize_record_state j b :
  exec (reauthorize_record j) b =
    set_accounts
      (Accounts.accumulateBalance (record_key j) (record_balance j) (accounts b)).1 b.
Proof.
  unfold reauthorize_record. rewrite exec_bind; cbn [getState exec state value fst snd].
  rewrite exec_bind.
  replace (exec (if debug b then _ else mret ()) b) with b by by destruct (debug b).
  rewrite !exec_bind; cbn [modify emit exec state value fst snd].
  by destruct (bool_decide _).
Qed.

Lemma reauthorize_record_sent j b :
  sent (out (reauthorize_record j) b) = rateUpdate b j.
Proof.
  unfold reauthorize_record, rateUpdate, record_rate.
  rewrite out_bind; cbn [getState out exec output state value fst snd app].
  rewrite out_bind, sent_app.
  replace (exec (if debug b then _ else mret ()) b) with b by by destruct (debug b).
  replace (sent (out (if debug b then _ else mret ()) b)) with (@nil Effect)
    by by destruct (debug b).
  rewrite !out_bind; cbn [modify emit out exec output state value fst snd app].
  case_bool_decide; [|done].
  unfold setRate. rewrite !out_bind; cbn [getState emit out exec output state value fst snd app].
  rewrite toString_ofString. reflexivity.
Qed.

Lemma reauthorize_loop_sent js b :
  sent (out (forEach js reauthorize_record) b) = concat (rateUpdate b <$> js).
Proof.
  revert b. induction js as [|j js IH]; intros b; [done|].
  cbn [forEach]. rewrite out_bind, sent_app, IH, reauthorize_record_sent.
  rewrite reauthorize_record_state. reflexivity.
Qed.

Lemma reauthorize_loop_accounts js b :
  accounts (exec (forEach js reauthorize_record) b) =
    foldl (λ s j, (Accounts.accumulateBalance (record_key j) (record_balance j) s).1)
      (accounts b) js.
Proof.
  revert b. induction js as [|j js IH]; intros b; [done|].
  cbn [forEach foldl]. rewrite exec_bind, IH, reauthorize_record_state. reflexivity.
Qed.

Lemma reauthorize_onResponse_success b r jsonAccounts :
  status r = 200 →
  Json.parse (body r) = Some jsonAccounts →
  exec (reauthorize_onResponse r) b =
    exec (forEach (Json.elements jsonAccounts) reauthorize_record)
      (set_reauthorizeInProgress false b)
  ∧ out (reauthorize_onResponse r) b =
      recordLatency "reauthorizeLatencyMs"
        :: out (forEach (Json.elements jsonAccounts) reauthorize_record)
             (set_reauthorizeInProgress false b)
        ++ [recordHit "reauthorize.success"].
Proof.
  intros Hst Hparse. unfold reauthorize_onResponse.
  rewrite exec_bind, out_bind. cbn [modify out exec output state value fst snd app].
  rewrite exec_bind, out_bind. cbn [emit out exec output state value fst snd app].
  rewrite bool_decide_eq_false_2 by (intros ?; done). rewrite Hparse.
  rewrite exec_bind, out_bind. done.
Qed.

(** The rate of a record is compared with the spend rate of the banker,
    not with the rate kept with the account: an account registered with
    rate 50000, on a banker whose spend rate is 100000, gets no rate update
    for a record with rate 60000. *)
Lemma rate_above_account_rate_sends_nothing :
  let key := ["camp1"; "strategy1"; "router"] in
  let registered :=
    mkResponse 200
      (Json.document
         (Wire.account (Wire.mkRecord "camp1:strategy1:router" 5000000 50000))) in
  let b :=
    exec (addAccountImpl_onResponse key registered)
      (exec (addAccountImpl key) (LocalBanker_new ROUTER "router")) in
  let r :=
    mkResponse 200
      (Json.document
         (Wire.accountList [Wire.mkRecord "camp1:strategy1:router" 5000000 60000])) in
  Accounts.rate <$> (Accounts.accounts (accounts b) !! key) = Some 50000
  ∧ spendRate b = 100000
  ∧ sent (out (reauthorize_onResponse r) b) = [].
Proof. split; [|split]; vm_compute; reflexivity. Qed.

(** C6, amended.  The requests a successful reauthorize response makes the
    banker send are rate updates: one for each record whose rate exceeds
    the spend rate configured for the banker (the instance-wide [spendRate],
    whatever rate is kept with the account) and none for any other record,
    in the order of the response; each is a POST to "/accounts/<name>/rate"
    with body [{"USD/1M": spendRate}]. *)
Theorem rate_update_iff_rate_exceeds (b : LocalBanker) (r : HttpResponse)
    (records : list Wire.AccountRecord) :
  status r = 200 →
  Json.parse (body r) = Some (Wire.accountList records) →
  sent (out (reauthorize_onResponse r) b) =
    concat
      ((λ a,
          if bool_decide (Wire.rate a > spendRate b)
          then [post ("/accounts/" +:+ Wire.name a +:+ "/rate") onSetRate
                  (Json.objectValue [("USD/1M", Json.intValue (spendRate b))])]
          else [])
         <$> records).
Proof.
  intros Hst Hparse.
  destruct (reauthorize_onResponse_success b r _ Hst Hparse) as [_ ->].
  match goal with
  | |- sent (?e :: ?l) = _ => change (sent (e :: l)) with (sent l)
  end.
  rewrite sent_app, app_nil_r, reauthorize_loop_sent.
  cbn [Wire.accountList Json.elements]. by rewrite <- list_fmap_compose.
Qed.

Lemma rate_update_iff_rate_exceeds_witness :
  let records :=
    [Wire.mkRecord "camp1:strategy1:router" 5000000 100001;
     Wire.mkRecord "camp2:strategy1:router" 5000000 100000] in
  sent (out (reauthorize_onResponse
               (mkResponse 200 (Json.document (Wire.accountList records))))
          (LocalBanker_new ROUTER "router")) =
    [post "/accounts/camp1:strategy1:router/rate" onSetRate
       (Json.objectValue [("USD/1M", Json.intValue 100000)])].
Proof.
  intros records.
  exact (rate_update_iff_rate_exceeds (LocalBanker_new ROUTER "router")
           (mkResponse 200 (Json.document (Wire.accountList records))) records
           eq_refl eq_refl).
Defined.

(** The balance of a reauthorize record lands on the key made of the
    received name: with instance suffix "router" and the account
    "camp1:strategy1:router" in the store, a record for "camp1:strategy1"
    leaves the suffixed account at its old balance and writes the new
    balance under "camp1:strategy1". *)
Lemma reauthorize_writes_unsuffixed_key :
  let b :=
    set_accounts
      (Accounts.mk
         {[ ["camp1"; "strategy1"; "router"] := Accounts.mkAccount 5000000 0 100000 ]}
         100000)
      (LocalBanker_new ROUTER "router") in
  let r :=
    mkResponse 200
      (Json.document
         (Wire.accountList [Wire.mkRecord "camp1:strategy1" 7000000 100000])) in
  let b' := exec (reauthorize_onResponse r) b in
  Accounts.getBalance ["camp1"; "strategy1"; "router"] (accounts b') = 5000000
  ∧ Accounts.getBalance ["camp1"; "strategy1"] (accounts b') = 7000000.
Proof. split; vm_compute; reflexivity. Qed.

(** C2, amended.  For every record of a successful reauthorize response the
    handler calls [accumulateBalance] with the fresh balance on the key built
    from the received name as it is, without the instance suffix: the store
    after the response is the store before it with these replacements
    applied in the order of the response; the account named by the last
    record holds the balance of that record, and an account that no record
    names is left as it was. *)
Theorem reauthorize_balance_on_received_name (b : LocalBanker) (r : HttpResponse)
    (records : list Wire.AccountRecord) :
  status r = 200 →
  Json.parse (body r) = Some (Wire.accountList records) →
  accounts (exec (reauthorize_onResponse r) b) =
    foldl
      (λ s a,
         (Accounts.accumulateBalance (Key.ofString (Wire.name a)) (Wire.balance a) s).1)
      (accounts b) records
  ∧ (∀ a,
       last records = Some a →
       Accounts.getBalance (Key.ofString (Wire.name a))
         (accounts (exec (reauthorize_onResponse r) b))
       = Wire.balance a)
  ∧ (∀ other,
       (∀ a, a ∈ records → Key.ofString (Wire.name a) ≠ other) →
       Accounts.accounts (accounts (exec (reauthorize_onResponse r) b)) !! other
       = Accounts.accounts (accounts b) !! other).
Proof.
  intros Hst Hparse.
  destruct (reauthorize_onResponse_success b r _ Hst Hparse) as [-> _].
  rewrite reauthorize_loop_accounts. cbn [Wire.accountList Json.elements].
  split; [by rewrite foldl_fmap|split].
  - intros a Hlast. apply last_Some in Hlast as [l ->].
    rewrite fmap_app, foldl_app; cbn [fmap list_fmap foldl].
    apply accumulateBalance_getBalance.
  - intros other Hother. apply accumulateBalance_fold_other.
    intros j (a & -> & Ha)%list_elem_of_fmap. by apply Hother.
Qed.

Lemma reauthorize_balance_on_received_name_witness :
  let records := [Wire.mkRecord "camp1:strategy1:router" 7000000 100000] in
  let b' :=
    exec (reauthorize_onResponse
            (mkResponse 200 (Json.document (Wire.accountList records))))
      (LocalBanker_new ROUTER "router") in
  Accounts.getBalance ["camp1"; "strategy1"; "router"] (accounts b') = 7000000
  ∧ Accounts.accounts (accounts b') !! ["camp1"; "strategy1"; "router"; "router"] = None.
Proof.
  intros records b'.
  destruct (reauthorize_balance_on_received_name (LocalBanker_new ROUTER "router")
              (mkResponse 200 (Json.document (Wire.accountList records))) records
              eq_refl eq_refl) as (_ & Hlast & Hother).
  split.
  - exact (Hlast _ eq_refl).
  - rewrite Hother; [reflexivity|].
    intros a Ha. apply list_elem_of_singleton in Ha as ->. vm_compute. discriminate.
Defined.

(** ** Lazy registration *)

Lemma addAccountImpl_known key b :
  Accounts.exists_ key (accounts b) = true →
  addAccountImpl key b =
    (tt, set_uninitializedAccounts (uninitializedAccounts b ∖ {[key]}) b, []).
Proof. intros Hex. unfold addAccountImpl, mbind, Cmd_bind, getState; cbn. by rewrite Hex. Qed.

Lemma addAccountImpl_new key b :
  Accounts.exists_ key (accounts b) = false →
  addAccountImpl key b =
    (tt, set_uninitializedAccounts ({[key]} ∪ uninitializedAccounts b) b,
     [recordHit "addAccount.attempts";
      post "/accounts" (onAddAccount key)
        (Json.objectValue
           [("accountName", Json.stringValue (Key.toString key));
            ("accountType", Json.stringValue (accountTypeTag (type b)))])]).
Proof. intros Hex. unfold addAccountImpl, mbind, Cmd_bind, getState; cbn. by rewrite Hex. Qed.

Lemma addAccountImpl_accounts key b : accounts (exec (addAccountImpl key) b) = accounts b.
Proof.
  unfold exec, state. destruct (Accounts.exists_ key (accounts b)) eqn:Hex.
  - by rewrite addAccountImpl_known.
  - by rewrite addAccountImpl_new.
Qed.

Lemma initializeAccountsPeriodic_run b :
  exec initializeAccountsPeriodic b =
    exec (forEach (elements (uninitializedAccounts b)) addAccountImpl)
      (set_uninitializedAccounts ∅ b)
  ∧ out initializeAccountsPeriodic b =
      recordCount (Z.of_nat (size (Accounts.accounts (accounts b)))) "accounts"
        :: out (forEach (elements (uninitializedAccounts b)) addAccountImpl)
             (set_uninitializedAccounts ∅ b).
Proof. split; reflexivity. Qed.

Lemma registrations_app key o1 o2 :
  registrations key (o1 ++ o2) = (registrations key o1 + registrations key o2)%nat.
Proof. unfold registrations. by rewrite requests_app, filter_app, length_app. Qed.

Lemma addAccountImpl_registrations key x b :
  registrations key (out (addAccountImpl x) b) =
    if decide (x = key ∧ Accounts.exists_ key (accounts b) = false) then 1%nat else 0%nat.
Proof.
  unfold out, output. destruct (Accounts.exists_ x (accounts b)) eqn:Hex.
  - rewrite addAccountImpl_known by done. cbn. case_decide as H; [|done].
    destruct H as [-> H]. congruence.
  - rewrite addAccountImpl_new by done. unfold registrations; cbn.
    destruct (decide (x = key)) as [->|Hne].
    + rewrite decide_True by done. by rewrite decide_True.
    + rewrite decide_False by congruence. by rewrite decide_False by tauto.
Qed.

(** A sweep over a list of keys asks once for every occurrence of an
    unknown key. *)
Lemma sweep_registrations key l b :
  Accounts.exists_ key (accounts b) = false →
  registrations key (out (forEach l addAccountImpl) b) = length (filter (λ x, x = key) l).
Proof.
  intros Hex. revert b Hex. induction l as [|x l IH]; intros b Hex; [done|].
  cbn [forEach]. rewrite out_bind, registrations_app, IH
    by by rewrite addAccountImpl_accounts.
  rewrite addAccountImpl_registrations, filter_cons.
  destruct (decide (x = key)) as [->|Hne].
  - by rewrite decide_True.
  - by rewrite decide_False by tauto.
Qed.

Lemma filter_absent (key : AccountKey) (l : list AccountKey) :
  key ∉ l → filter (λ x, x = key) l = [].
Proof.
  induction l as [|x l IH]; intros Hnin; [done|].
  apply not_elem_of_cons in Hnin as [Hne Hnin].
  rewrite filter_cons, decide_False by done. by apply IH.
Qed.

Lemma count_NoDup (key : AccountKey) (l : list AccountKey) :
  NoDup l → key ∈ l → length (filter (λ x, x = key) l) = 1%nat.
Proof.
  induction 1 as [|x l Hx Hnd IH]; intros Hin; [by apply elem_of_nil in Hin|].
  rewrite filter_cons. destruct (decide (x = key)) as [->|Hne].
  - by rewrite filter_absent.
  - apply elem_of_cons in Hin as [->|Hin]; [done|]. by apply IH.
Qed.

(** C5.  [b] is a banker whose store does not hold the fully-qualified key
    of [key] yet, [b0] one whose store holds it.  On [b], a call of
    [addAccount] adds the key to the pending set and posts one registration
    request to "/accounts" with the account name and the role tag "Router"
    or "PostAuction"; after two calls in a row the pending set holds the key
    exactly once, and the sweep that follows posts exactly one registration
    request for it (each of the two calls has posted its own).  On [b0] the
    call removes the key from the pending set and sends nothing. *)
Theorem addAccount_twice_one_pending (b b0 : LocalBanker) (key : AccountKey) :
  Accounts.exists_ (fullKey key b) (accounts b) = false →
  Accounts.exists_ (fullKey key b0) (accounts b0) = true →
  let k := fullKey key b in
  let b2 := exec (addAccount key;; addAccount key) b in
  (uninitializedAccounts b2 = {[k]} ∪ uninitializedAccounts b
   ∧ length (filter (λ x, x = k) (elements (uninitializedAccounts b2))) = 1%nat
   ∧ registrations k (out initializeAccountsPeriodic b2) = 1%nat
   ∧ registrations k (out (addAccount key;; addAccount key) b) = 2%nat)
  ∧ (exec (addAccount key) b =
       set_uninitializedAccounts ({[k]} ∪ uninitializedAccounts b) b
     ∧ out (addAccount key) b =
         [recordHit "addAccount.attempts";
          post "/accounts" (onAddAccount k)
            (Json.objectValue
               [("accountName", Json.stringValue (Key.toString k));
                ("accountType",
                 Json.stringValue
                   match type b with
                   | ROUTER => "Router"
                   | POST_AUCTION => "PostAuction"
                   end)])])
  ∧ (exec (addAccount key) b0 =
       set_uninitializedAccounts (uninitializedAccounts b0 ∖ {[fullKey key b0]}) b0
     ∧ out (addAccount key) b0 = []).
Proof.
  intros Hnew Hknown k b2.
  assert (Hone : addAccount key b = addAccountImpl k b) by reflexivity.
  assert (Hb1 : exec (addAccount key) b =
                set_uninitializedAccounts ({[k]} ∪ uninitializedAccounts b) b).
  { unfold exec, state. rewrite Hone, addAccountImpl_new; done. }
  assert (Hb2 : b2 = set_uninitializedAccounts ({[k]} ∪ uninitializedAccounts b) b).
  { unfold b2. rewrite exec_bind, Hb1.
    change (exec (addAccount key) ?b') with (exec (addAccountImpl k) b').
    unfold exec, state. rewrite addAccountImpl_new by done. cbn.
    by rewrite (assoc_L (∪)), (idemp_L (∪)). }
  split; [|split].
  - rewrite Hb2; cbn [uninitializedAccounts set_uninitializedAccounts].
    split; [done|]. split; [|split].
    + apply count_NoDup; [apply NoDup_elements|]. apply elem_of_elements. set_solver.
    + destruct (initializeAccountsPeriodic_run
                  (set_uninitializedAccounts ({[k]} ∪ uninitializedAccounts b) b))
        as [_ ->].
      change (registrations k (?e :: ?l)) with (registrations k l).
      rewrite sweep_registrations by done. cbn [uninitializedAccounts set_uninitializedAccounts].
      apply count_NoDup; [apply NoDup_elements|]. apply elem_of_elements. set_solver.
    + rewrite out_bind, registrations_app, Hb1.
      change (out (addAccount key) ?b') with (out (addAccountImpl k) b').
      rewrite !addAccountImpl_registrations. by rewrite !decide_True.
  - split; [done|]. unfold out, output. rewrite Hone, addAccountImpl_new by done.
    by destruct (type b).
  - change (addAccount key b0) with (addAccountImpl (fullKey key b0) b0).
    unfold exec, out, state, output.
    change (addAccount key b0) with (addAccountImpl (fullKey key b0) b0).
    by rewrite addAccountImpl_known.
Qed.

Lemma addAccount_twice_one_pending_witness :
  let key := ["camp1"; "strategy1"] in
  let k := ["camp1"; "strategy1"; "router"] in
  let b := LocalBanker_new ROUTER "router" in
  let b0 :=
    set_accounts (Accounts.mk {[ k := Accounts.mkAccount 5000000 0 100000 ]} 100000) b in
  let b2 := exec (addAccount key;; addAccount key) b in
  length (filter (λ x, x = k) (elements (uninitializedAccounts b2))) = 1%nat
  ∧ registrations k (out initializeAccountsPeriodic b2) = 1%nat
  ∧ out (addAccount key) b0 = [].
Proof.
  intros key k b b0 b2.
  assert (Hnew : Accounts.exists_ (fullKey key b) (accounts b) = false)
    by (vm_compute; reflexivity).
  assert (Hknown : Accounts.exists_ (fullKey key b0) (accounts b0) = true)
    by (vm_compute; reflexivity).
  destruct (addAccount_twice_one_pending b b0 key Hnew Hknown)
    as ((_ & Hone & Hsweep & _) & _ & (_ & Hquiet)).
  split; [exact Hone|]. split; [exact Hsweep | exact Hquiet].
Defined.

(** ** Registration responses *)

Lemma addAccountImpl_onResponse_failure key r b :
  status r ≠ 200 →
  addAccountImpl_onResponse key r b =
    (tt, b, [recordLatency "addAccountLatencyMs"; recordHit "addAccount.failure"]).
Proof.
  intros Hst. unfold addAccountImpl_onResponse, mbind, Cmd_bind; cbn.
  by rewrite bool_decide_eq_true_2.
Qed.

Lemma addAccountImpl_onResponse_ok key r b :
  status r = 200 →
  addAccountImpl_onResponse key r b =
    (tt,
     set_uninitializedAccounts (uninitializedAccounts b ∖ {[key]})
       (set_accounts (Accounts.addFromJsonString (body r) (accounts b)).1 b),
     recordLatency "addAccountLatencyMs"
       :: (if (Accounts.addFromJsonString (body r) (accounts b)).2
           then [] else [recordHit "addAccount.error"])
       ++ [recordHit "addAccount.success"]).
Proof.
  intros Hst. unfold addAccountImpl_onResponse, mbind, Cmd_bind; cbn.
  rewrite bool_decide_eq_false_2 by (intros ?; done). cbn.
  by destruct (Accounts.addFromJsonString (body r) (accounts b)).2.
Qed.

(** A body that does not merge leaves the store as it was. *)
Lemma addFromJsonString_rejected body s :
  (Accounts.addFromJsonString body s).2 = false →
  (Accounts.addFromJsonString body s).1 = s.
Proof.
  unfold Accounts.addFromJsonString.
  destruct (Accounts.decode body) as [[key a]|]; [|done].
  by destruct (Accounts.accounts s !! key).
Qed.

(** ** Commands that do not register a given key *)

Section Quiet.

Variable key : AccountKey.

Lemma quiet_ret {A} (a : A) : quiet key (mret a).
Proof. intros b Hb. repeat split; [done|]. apply not_elem_of_nil. Qed.

Lemma quiet_bind {A B} (c : Cmd A) (k : A → Cmd B) :
  quiet key c → (∀ a, quiet key (k a)) → quiet key (c ≫= k).
Proof.
  intros Hc Hk b Hb. destruct (Hc b Hb) as (Hs1 & Hu1 & Hr1).
  destruct (Hk (value (c b)) (exec c b) Hu1) as (Hs2 & Hu2 & Hr2).
  rewrite exec_bind, out_bind, requests_app. repeat split; [congruence|done|].
  rewrite elem_of_app. tauto.
Qed.

Lemma quiet_getState : quiet key getState.
Proof. intros b Hb. repeat split; [done|]. apply not_elem_of_nil. Qed.

Lemma quiet_emit e :
  request e ≠ Some ("/accounts", onAddAccount key) → quiet key (emit e).
Proof.
  intros He b Hb. repeat split; [done|]. unfold out, output; cbn.
  destruct (request e) as [q|]; [|apply not_elem_of_nil].
  rewrite list_elem_of_singleton. congruence.
Qed.

Lemma quiet_modify f :
  (∀ b, accountSuffix (f b) = accountSuffix b
        ∧ uninitializedAccounts (f b) ⊆ uninitializedAccounts b) →
  quiet key (modify f).
Proof.
  intros Hf b Hb. destruct (Hf b) as [Hs Hu].
  repeat split; [done|set_solver|apply not_elem_of_nil].
Qed.

Lemma quiet_forEach {A} (l : list A) (f : A → Cmd unit) :
  (∀ x, x ∈ l → quiet key (f x)) → quiet key (forEach l f).
Proof.
  induction l as [|x l IH]; intros Hf; [apply quiet_ret|].
  cbn [forEach]. apply quiet_bind; [apply Hf, list_elem_of_here|].
  intros _. apply IH. intros y Hy. by apply Hf, list_elem_of_further.
Qed.

Lemma quiet_if {A} (c : bool) (c1 c2 : Cmd A) :
  quiet key c1 → quiet key c2 → quiet key (if c then c1 else c2).
Proof. by destruct c. Qed.

End Quiet.

(** Decomposition of a command into the cases above. *)
Ltac quiet_step :=
  match goal with
  | |- quiet _ (_ ≫= _) => apply quiet_bind; [|intros ?]
  | |- quiet _ (mret _) => apply quiet_ret
  | |- quiet _ getState => apply quiet_getState
  | |- quiet _ (emit _) => apply quiet_emit; discriminate
  | |- quiet _ (modify _) => apply quiet_modify; intros ?; split; [done|set_solver]
  | |- quiet _ (if _ then _ else _) => apply quiet_if
  | |- quiet _ (match _ with Some _ => _ | None => _ end) => case_match
  end.

Ltac quiet_tac := repeat quiet_step.

Lemma quiet_replaceAccount key k : quiet key (replaceAccount k).
Proof. unfold replaceAccount. quiet_tac. Qed.

Lemma quiet_setRate key k : quiet key (setRate k).
Proof. unfold setRate. quiet_tac. Qed.

Lemma quiet_addAccountImpl key x : x ≠ key → quiet key (addAccountImpl x).
Proof.
  intros Hne. unfold addAccountImpl. quiet_tac.
  - intros b Hb. repeat split; [|apply not_elem_of_nil]. cbn. set_solver.
  - apply quiet_emit. cbn. congruence.
Qed.

Lemma quiet_reauthorize key : quiet key reauthorize.
Proof. unfold reauthorize. quiet_tac. Qed.

Lemma quiet_spendUpdate key : quiet key spendUpdate.
Proof. unfold spendUpdate. quiet_tac. Qed.

Lemma quiet_onResponse key cb r : quiet key (onResponse cb r).
Proof.
  destruct cb as [k|k| | |]; cbn [onResponse].
  - unfold addAccountImpl_onResponse. quiet_tac.
  - unfold replaceAccount_onResponse. quiet_tac.
  - unfold spendUpdate_onResponse. quiet_tac.
    apply quiet_forEach. intros e _. unfold spendUpdate_entry.
    apply quiet_if; [apply quiet_replaceAccount|apply quiet_ret].
  - unfold reauthorize_onResponse. quiet_tac.
    apply quiet_forEach. intros j _. unfold reauthorize_record. quiet_tac.
    apply quiet_setRate.
  - unfold setRate_onResponse. quiet_tac.
Qed.

Lemma quiet_sweep key : quiet key initializeAccountsPeriodic.
Proof.
  intros b Hb. destruct (initializeAccountsPeriodic_run b) as [-> ->].
  destruct (quiet_forEach key (elements (uninitializedAccounts b)) addAccountImpl)
    with (b := set_uninitializedAccounts ∅ b) as (Hs & Hu & Hr).
  - intros x Hx. apply quiet_addAccountImpl. intros ->.
    by apply elem_of_elements in Hx.
  - cbn. apply not_elem_of_empty.
  - by repeat split.
Qed.

Lemma run_quiet key c s :
  quiet key c →
  key ∉ uninitializedAccounts (banker s) →
  accountSuffix (banker (run c s).1) = accountSuffix (banker s)
  ∧ (key ∉ uninitializedAccounts (banker (run c s).1))
  ∧ (("/accounts", onAddAccount key) ∉ requests (run c s).2).
Proof. intros Hc Hs. apply (Hc (banker s) Hs). Qed.

Lemma step_quiet key e s :
  otherThanAdding (accountSuffix (banker s)) key e →
  key ∉ uninitializedAccounts (banker s) →
  accountSuffix (banker (step e s).1) = accountSuffix (banker s)
  ∧ (key ∉ uninitializedAccounts (banker (step e s).1))
  ∧ (("/accounts", onAddAccount key) ∉ requests (step e s).2).
Proof.
  intros He Hs. destruct e as [| | |key0|i r]; cbn [step].
  - by apply run_quiet; [apply quiet_reauthorize|].
  - by apply run_quiet; [apply quiet_spendUpdate|].
  - by apply run_quiet; [apply quiet_sweep|].
  - apply (quiet_addAccountImpl key (fullKey key0 (banker s)) (He key0 eq_refl)
             (banker s) Hs).
  - destruct (outstanding s !! i) as [[resource cb]|].
    + by apply (run_quiet key _ (mkSystem (banker s) _)); [apply quiet_onResponse|].
    + repeat split; [done|]. apply not_elem_of_nil.
Qed.

Lemma steps_quiet key evs s :
  Forall (otherThanAdding (accountSuffix (banker s)) key) evs →
  key ∉ uninitializedAccounts (banker s) →
  (key ∉ uninitializedAccounts (banker (steps evs s).1))
  ∧ (("/accounts", onAddAccount key) ∉ requests (steps evs s).2).
Proof.
  revert s. induction evs as [|e evs IH]; intros s Hevs Hs.
  - split; [done|]. apply not_elem_of_nil.
  - apply Forall_cons in Hevs as [He Hevs].
    destruct (step_quiet key e s He Hs) as (Hsfx & Hu & Hr).
    destruct (IH (step e s).1) as [Hu' Hr']; [by rewrite Hsfx|done|].
    cbn [steps fst snd]. rewrite requests_app, elem_of_app. tauto.
Qed.

(** C9.  A registration response with status 200 whose body does not merge
    into the store ([addFromJsonString] answers false) still erases the key
    from the pending set: the store is as before, the error counter is
    recorded, and in no later run of timer ticks, periodic sweeps and
    responses (anything but a new call of [addAccount] for that key) is a
    registration request for the key sent again.  A key that is pending
    stays pending after a response exactly when the status is not 200. *)
Theorem rejected_registration_not_retried (b : LocalBanker) (key : AccountKey)
    (r : HttpResponse) :
  status r = 200 →
  (Accounts.addFromJsonString (body r) (accounts b)).2 = false →
  let b' := exec (addAccountImpl_onResponse key r) b in
  (key ∉ uninitializedAccounts b')
  ∧ accounts b' = accounts b
  ∧ hits (out (addAccountImpl_onResponse key r) b) =
      ["addAccount.error"; "addAccount.success"]
  ∧ (∀ inflight evs,
       Forall (otherThanAdding (accountSuffix b) key) evs →
       (key ∉ uninitializedAccounts (banker (steps evs (mkSystem b' inflight)).1))
       ∧ (("/accounts", onAddAccount key)
            ∉ requests (steps evs (mkSystem b' inflight)).2))
  ∧ (∀ r0, key ∈ uninitializedAccounts b →
       (key ∈ uninitializedAccounts (exec (addAccountImpl_onResponse key r0) b)
        ↔ status r0 ≠ 200)).
Proof.
  intros Hst Hrej b'.
  assert (Hb' : b' = set_uninitializedAccounts (uninitializedAccounts b ∖ {[key]}) b).
  { unfold b', exec, state. rewrite addAccountImpl_onResponse_ok by done. cbn.
    rewrite addFromJsonString_rejected by done. by destruct b. }
  assert (Hkey : key ∉ uninitializedAccounts b') by (rewrite Hb'; cbn; set_solver).
  split; [done|]. split; [by rewrite Hb'|]. split; [|split].
  - unfold out, output. rewrite addAccountImpl_onResponse_ok by done. by rewrite Hrej.
  - intros inflight evs Hevs. apply steps_quiet; [|done].
    by rewrite Hb'.
  - intros r0 Hpending. unfold exec, state. destruct (decide (status r0 = 200)) as [H200|H200].
    + rewrite addAccountImpl_onResponse_ok by done. cbn. set_solver.
    + by rewrite addAccountImpl_onResponse_failure.
Qed.

Lemma rejected_registration_not_retried_witness :
  let key := ["camp1"; "strategy1"; "router"] in
  let b := exec (addAccountImpl key) (LocalBanker_new ROUTER "router") in
  let r := mkResponse 200 (Json.document (Json.objectValue [("error", Json.stringValue "no such budget")])) in
  let b' := exec (addAccountImpl_onResponse key r) b in
  (key ∈ uninitializedAccounts b)
  ∧ (key ∉ uninitializedAccounts b')
  ∧ (("/accounts", onAddAccount key)
       ∉ requests (steps [tick_uninitializedAccounts; tick_reauthorize;
                          tick_uninitializedAccounts] (mkSystem b' [])).2).
Proof.
  intros key b r b'.
  destruct (rejected_registration_not_retried b key r eq_refl eq_refl)
    as (Hgone & _ & _ & Hlater & _).
  split; [|split].
  - vm_compute. reflexivity.
  - exact Hgone.
  - apply Hlater. repeat constructor; intros key0 Hcall; discriminate Hcall.
Defined.

(** ** Requests in flight *)

Lemma inFlight_app cb b o1 o2 :
  inFlight cb (mkSystem b (o1 ++ o2))
  = (inFlight cb (mkSystem b o1) + length (filter (λ q, q.2 = cb) o2))%nat.
Proof. unfold inFlight; cbn. by rewrite filter_app, length_app. Qed.

Lemma filter_delete_length {A} (P : A → Prop) `{∀ x, Decision (P x)} (l : list A) i x :
  l !! i = Some x → P x →
  length (filter P l) = S (length (filter P (delete i l))).
Proof.
  revert i. induction l as [|y l IH]; intros i Hi Hx; [done|].
  destruct i as [|i]; cbn in Hi.
  - injection Hi as ->. cbn [delete list_delete]. by rewrite filter_cons_True.
  - cbn [delete list_delete]. rewrite !filter_cons.
    case_decide; cbn; rewrite (IH i) by done; done.
Qed.

Lemma filter_none_length {A} (P : A → Prop) `{∀ x, Decision (P x)} (l : list A) :
  (∀ x, x ∈ l → ¬ P x) → length (filter P l) = 0%nat.
Proof.
  intros Hl. induction l as [|y l IH]; [done|].
  rewrite filter_cons_False by (apply Hl; apply list_elem_of_here).
  apply IH. intros x Hx. by apply Hl, list_elem_of_further.
Qed.

Lemma requests_sent o : requests o = requests (sent o).
Proof.
  induction o as [|e o IH]; [done|].
  unfold requests, sent in *. rewrite filter_cons.
  destruct e; cbn [isRequest Is_true decide_rel omap request];
    (rewrite decide_True by done) || (rewrite decide_False by tauto);
    csimpl; by rewrite IH.
Qed.

(** ** One guard for both protocols *)

Section SingleFlight.

Variable tick : Cmd unit.
Variable cb : Callback.
Variable resource : string.
Variable inProgress : LocalBanker → bool.
Variable skipped : LocalBanker → Z.
Variable skipHit : string.

Hypothesis tick_idle : ∀ b,
  inProgress b = false →
  inProgress (exec tick b) = true ∧ skipped (exec tick b) = 0
  ∧ requests (out tick b) = [(resource, cb)] ∧ (skipHit ∉ hits (out tick b)).
Hypothesis tick_skip : ∀ b,
  inProgress b = true → skipped b + 1 ≤ 3 →
  inProgress (exec tick b) = true ∧ skipped (exec tick b) = skipped b + 1
  ∧ requests (out tick b) = [].
Hypothesis tick_force : ∀ b,
  inProgress b = true → skipped b + 1 > 3 →
  inProgress (exec tick b) = true ∧ skipped (exec tick b) = 0
  ∧ requests (out tick b) = [(resource, cb)].
Hypothesis response_clears : ∀ r b, inProgress (exec (onResponse cb r) b) = false.
Hypothesis response_requests : ∀ r b q,
  q ∈ requests (out (onResponse cb r) b) → q.2 ≠ cb.

(** The tick that issues the first request and four ticks behind it put
    a second request in flight. *)
Lemma forced_retry_doubles s :
  inProgress (banker s) = false →
  inProgress (banker (Nat.iter 5 (nextTick tick) s)) = true
  ∧ inFlight cb (Nat.iter 5 (nextTick tick) s) = (inFlight cb s + 2)%nat.
Proof.
  intros Hidle. destruct s as [b o]; cbn [banker] in Hidle.
  unfold Nat.iter, nextTick, run; cbn [nat_rect fst banker outstanding].
  destruct (tick_idle b Hidle) as (Hf1 & Hk1 & -> & _).
  set (b1 := exec tick b) in *.
  destruct (tick_skip b1 Hf1 ltac:(lia)) as (Hf2 & Hk2 & ->).
  set (b2 := exec tick b1) in *.
  destruct (tick_skip b2 Hf2 ltac:(lia)) as (Hf3 & Hk3 & ->).
  set (b3 := exec tick b2) in *.
  destruct (tick_skip b3 Hf3 ltac:(lia)) as (Hf4 & Hk4 & ->).
  set (b4 := exec tick b3) in *.
  destruct (tick_force b4 Hf4 ltac:(lia)) as (Hf5 & Hk5 & ->).
  split; [done|]. rewrite !app_nil_r, <- app_assoc, inFlight_app. cbn.
  rewrite !decide_True by done. done.
Qed.

(** Whichever of the requests in flight is answered, the flag is cleared
    with the others still in flight, and the next tick adds a request
    without a skip. *)
Lemma any_response_reopens s i r res :
  outstanding s !! i = Some (res, cb) →
  let s' := (step (deliver i r) s).1 in
  let t := run tick s' in
  inProgress (banker s') = false
  ∧ S (inFlight cb s') = inFlight cb s
  ∧ (skipHit ∉ hits t.2)
  ∧ requests t.2 = [(resource, cb)]
  ∧ inFlight cb t.1 = inFlight cb s.
Proof.
  intros Hi s' t.
  assert (Hs' : s' = (run (onResponse cb r)
                        (mkSystem (banker s) (delete i (outstanding s)))).1).
  { unfold s'. cbn [step]. by rewrite Hi. }
  assert (Hflag : inProgress (banker s') = false).
  { rewrite Hs'. apply response_clears. }
  assert (Hcount : S (inFlight cb s') = inFlight cb s).
  { rewrite Hs'. unfold run; cbn [fst banker outstanding]. rewrite inFlight_app.
    rewrite (filter_none_length _ (requests _)) by apply response_requests.
    unfold inFlight; cbn [outstanding].
    rewrite (filter_delete_length _ (outstanding s) i (res, cb)) by done. lia. }
  destruct (tick_idle (banker s') Hflag) as (_ & _ & Hreq & Hhit).
  split; [done|]. split; [done|]. split; [done|]. split; [done|].
  unfold t, run; cbn [fst snd]. destruct s' as [b' o']; cbn [banker outstanding] in *.
  rewrite inFlight_app, Hreq. cbn. rewrite decide_True by done. cbn.
  rewrite <- Hcount. unfold inFlight; cbn. lia.
Qed.

End SingleFlight.

(** The two protocols satisfy the assumptions of the section. *)

Lemma reauthorize_tick_idle b :
  reauthorizeInProgress b = false →
  reauthorizeInProgress (exec reauthorize b) = true
  ∧ reauthorizeSkipped (exec reauthorize b) = 0
  ∧ requests (out reauthorize b) = [("/reauthorize/1", onReauthorize)]
  ∧ ("reauthorize.inProgress" ∉ hits (out reauthorize b)).
Proof.
  intros Hidle. unfold exec, out, state, output. rewrite reauthorize_idle by done.
  repeat split. cbn. rewrite list_elem_of_singleton. discriminate.
Qed.

Lemma reauthorize_tick_skip b :
  reauthorizeInProgress b = true → reauthorizeSkipped b + 1 ≤ 3 →
  reauthorizeInProgress (exec reauthorize b) = true
  ∧ reauthorizeSkipped (exec reauthorize b) = reauthorizeSkipped b + 1
  ∧ requests (out reauthorize b) = [].
Proof.
  intros Hflag Hle. unfold exec, out, state, output. by rewrite reauthorize_skip.
Qed.

Lemma reauthorize_tick_force b :
  reauthorizeInProgress b = true → reauthorizeSkipped b + 1 > 3 →
  reauthorizeInProgress (exec reauthorize b) = true
  ∧ reauthorizeSkipped (exec reauthorize b) = 0
  ∧ requests (out reauthorize b) = [("/reauthorize/1", onReauthorize)].
Proof.
  intros Hflag Hgt. unfold exec, out, state, output. by rewrite reauthorize_force.
Qed.

Lemma spendUpdate_tick_idle b :
  spendUpdateInProgress b = false →
  spendUpdateInProgress (exec spendUpdate b) = true
  ∧ spendUpdateSkipped (exec spendUpdate b) = 0
  ∧ requests (out spendUpdate b) = [("/spendupdate", onSpendUpdate)]
  ∧ ("spendUpdate.inProgress" ∉ hits (out spendUpdate b)).
Proof.
  intros Hidle. unfold exec, out, state, output. rewrite spendUpdate_idle by done.
  repeat split. cbn. rewrite list_elem_of_singleton. discriminate.
Qed.

Lemma spendUpdate_tick_skip b :
  spendUpdateInProgress b = true → spendUpdateSkipped b + 1 ≤ 3 →
  spendUpdateInProgress (exec spendUpdate b) = true
  ∧ spendUpdateSkipped (exec spendUpdate b) = spendUpdateSkipped b + 1
  ∧ requests (out spendUpdate b) = [].
Proof.
  intros Hflag Hle. unfold exec, out, state, output. by rewrite spendUpdate_skip.
Qed.

Lemma spendUpdate_tick_force b :
  spendUpdateInProgress b = true → spendUpdateSkipped b + 1 > 3 →
  spendUpdateInProgress (exec spendUpdate b) = true
  ∧ spendUpdateSkipped (exec spendUpdate b) = 0
  ∧ requests (out spendUpdate b) = [("/spendupdate", onSpendUpdate)].
Proof.
  intros Hflag Hgt. unfold exec, out, state, output. by rewrite spendUpdate_force.
Qed.

(** Every way through the callbacks ends with the flag cleared. *)
Lemma reauthorize_onResponse_clears r b :
  reauthorizeInProgress (exec (onResponse onReauthorize r) b) = false.
Proof.
  cbn [onResponse]. destruct (decide (status r = 200)) as [Hst|Hst].
  - destruct (Json.parse (body r)) as [jsonAccounts|] eqn:Hparse.
    + destruct (reauthorize_onResponse_success b r jsonAccounts Hst Hparse) as [-> _].
      apply (forEach_invariant (λ b', reauthorizeInProgress b' = false)); [|done].
      intros j b' Hb'. by rewrite reauthorize_record_state.
    + unfold exec, state. by rewrite reauthorize_onResponse_garbled.
  - unfold exec, state. by rewrite reauthorize_onResponse_failure.
Qed.

Lemma spendUpdate_onResponse_clears r b :
  spendUpdateInProgress (exec (onResponse onSpendUpdate r) b) = false.
Proof.
  cbn [onResponse]. destruct (decide (status r = 200)) as [Hst|Hst].
  - destruct (Json.parse (body r)) as [result|] eqn:Hparse.
    + by destruct (spendUpdate_onResponse_success b r result Hst Hparse) as [-> _].
    + unfold exec, state. by rewrite spendUpdate_onResponse_garbled.
  - unfold exec, state. by rewrite spendUpdate_onResponse_failure.
Qed.

(** The callbacks start rate updates and replace-fetches only. *)
Lemma reauthorize_onResponse_requests r b q :
  q ∈ requests (out (onResponse onReauthorize r) b) → q.2 ≠ onReauthorize.
Proof.
  cbn [onResponse]. destruct (decide (status r = 200)) as [Hst|Hst].
  - destruct (Json.parse (body r)) as [jsonAccounts|] eqn:Hparse.
    + rewrite requests_sent.
      destruct (reauthorize_onResponse_success b r jsonAccounts Hst Hparse) as [_ ->].
      match goal with
      | |- context [sent (?e :: ?l)] => change (sent (e :: l)) with (sent l)
      end.
      rewrite sent_app, app_nil_r, reauthorize_loop_sent.
      induction (Json.elements jsonAccounts) as [|j js IH]; [by intros ?%elem_of_nil|].
      rewrite fmap_cons, concat_cons, requests_app, elem_of_app.
      intros [Hq|Hq]; [|by apply IH].
      unfold rateUpdate in Hq. case_bool_decide; [|by apply elem_of_nil in Hq].
      apply list_elem_of_singleton in Hq as ->. discriminate.
    + unfold out, output. rewrite reauthorize_onResponse_garbled by done.
      by intros ?%elem_of_nil.
  - unfold out, output. rewrite reauthorize_onResponse_failure by done.
    by intros ?%elem_of_nil.
Qed.

Lemma spendUpdate_onResponse_callbacks r b q :
  q ∈ requests (out (onResponse onSpendUpdate r) b) → q.2 ≠ onSpendUpdate.
Proof.
  cbn [onResponse]. destruct (decide (status r = 200)) as [Hst|Hst].
  - destruct (Json.parse (body r)) as [result|] eqn:Hparse.
    + rewrite (spendUpdate_onResponse_requests b r result Hst Hparse).
      intros (e & -> & _)%list_elem_of_fmap. discriminate.
    + unfold out, output. rewrite spendUpdate_onResponse_garbled by done.
      by intros ?%elem_of_nil.
  - unfold out, output. rewrite spendUpdate_onResponse_failure by done.
    by intros ?%elem_of_nil.
Qed.

(** C10.  For both protocols, from a banker with no request of the protocol
    in flight: the first tick and the forced retry four ticks later leave two
    requests in flight with the flag set.  Whichever of the two is answered
    first, and whatever the response, the handler clears the flag while the
    other request is still in flight; the tick that follows records no skip
    and issues one more request, so that two requests are in flight again. *)
Theorem flag_carries_no_request_identity (s : System) (i j : nat)
    (r : HttpResponse) (res res' : string) :
  reauthorizeInProgress (banker s) = false →
  spendUpdateInProgress (banker s) = false →
  inFlight onReauthorize s = 0%nat →
  inFlight onSpendUpdate s = 0%nat →
  outstanding (steps (replicate 5 tick_reauthorize) s).1 !! i = Some (res, onReauthorize) →
  outstanding (steps (replicate 5 tick_spendUpdate) s).1 !! j = Some (res', onSpendUpdate) →
  racingResponses tick_reauthorize onReauthorize "/reauthorize/1"
    reauthorizeInProgress "reauthorize.inProgress" s i r
  ∧ racingResponses tick_spendUpdate onSpendUpdate "/spendupdate"
      spendUpdateInProgress "spendUpdate.inProgress" s j r.
Proof.
  intros Hre Hsp Hre0 Hsp0 Hi Hj. split.
  - destruct (forced_retry_doubles reauthorize onReauthorize "/reauthorize/1"
                reauthorizeInProgress reauthorizeSkipped "reauthorize.inProgress"
                reauthorize_tick_idle reauthorize_tick_skip reauthorize_tick_force
                s Hre) as [Hflag Hcount].
    destruct (any_response_reopens reauthorize onReauthorize "/reauthorize/1"
                reauthorizeInProgress reauthorizeSkipped "reauthorize.inProgress"
                reauthorize_tick_idle reauthorize_onResponse_clears
                reauthorize_onResponse_requests _ i r res Hi)
      as (Hclear & Hone & Hhit & Hreq & Htwo).
    change (Nat.iter 5 _ s) with (steps (replicate 5 tick_reauthorize) s).1 in Hflag, Hcount.
    unfold racingResponses. rewrite Hcount, Hre0 in *.
    repeat split; try done. lia.
  - destruct (forced_retry_doubles spendUpdate onSpendUpdate "/spendupdate"
                spendUpdateInProgress spendUpdateSkipped "spendUpdate.inProgress"
                spendUpdate_tick_idle spendUpdate_tick_skip spendUpdate_tick_force
                s Hsp) as [Hflag Hcount].
    destruct (any_response_reopens spendUpdate onSpendUpdate "/spendupdate"
                spendUpdateInProgress spendUpdateSkipped "spendUpdate.inProgress"
                spendUpdate_tick_idle spendUpdate_onResponse_clears
                spendUpdate_onResponse_callbacks _ j r res' Hj)
      as (Hclear & Hone & Hhit & Hreq & Htwo).
    change (Nat.iter 5 _ s) with (steps (replicate 5 tick_spendUpdate) s).1 in Hflag, Hcount.
    unfold racingResponses. rewrite Hcount, Hsp0 in *.
    repeat split; try done. lia.
Qed.

Lemma flag_carries_no_request_identity_witness :
  let s := mkSystem (LocalBanker_new ROUTER "router") [] in
  let r := mkResponse 504 (Json.garbled "Gateway Timeout") in
  racingResponses tick_reauthorize onReauthorize "/reauthorize/1"
    reauthorizeInProgress "reauthorize.inProgress" s 1 r
  ∧ racingResponses tick_spendUpdate onSpendUpdate "/spendupdate"
      spendUpdateInProgress "spendUpdate.inProgress" s 0 r.
Proof.
  intros s r.
  exact (flag_carries_no_request_identity s 1 0 r "/reauthorize/1" "/spendupdate"
           eq_refl eq_refl eq_refl eq_refl eq_refl eq_refl).
Defined.

(** * Further properties *)

(** ** What a command leaves alone and what it sends *)

Section Preserves.

Context {X : Type} (f : LocalBanker → X).

Lemma preserves_ret {A} (a : A) : preserves f (mret a).
Proof. by intros b. Qed.

Lemma preserves_bind {A B} (c : Cmd A) (k : A → Cmd B) :
  preserves f c → (∀ a, preserves f (k a)) → preserves f (c ≫= k).
Proof. intros Hc Hk b. rewrite exec_bind, Hk. apply Hc. Qed.

Lemma preserves_getState : preserves f getState.
Proof. by intros b. Qed.

Lemma preserves_emit e : preserves f (emit e).
Proof. by intros b. Qed.

Lemma preserves_modify g : (∀ b, f (g b) = f b) → preserves f (modify g).
Proof. intros Hg b. apply Hg. Qed.

Lemma preserves_forEach {A} (l : list A) (loopBody : A → Cmd unit) :
  (∀ x, preserves f (loopBody x)) → preserves f (forEach l loopBody).
Proof.
  intros Hbody. induction l as [|x l IH]; [apply preserves_ret|].
  cbn [forEach]. apply preserves_bind; [apply Hbody|]. by intros _.
Qed.

Lemma preserves_if {A} (c : bool) (c1 c2 : Cmd A) :
  preserves f c1 → preserves f c2 → preserves f (if c then c1 else c2).
Proof. by destruct c. Qed.

End Preserves.

Section SendsOnly.

Variable Q : string * Callback → Prop.

Lemma sendsOnly_ret {A} (a : A) : sendsOnly Q (mret a).
Proof. intros b. apply Forall_nil_2. Qed.

Lemma sendsOnly_bind {A B} (c : Cmd A) (k : A → Cmd B) :
  sendsOnly Q c → (∀ a, sendsOnly Q (k a)) → sendsOnly Q (c ≫= k).
Proof.
  intros Hc Hk b. rewrite out_bind, requests_app. apply Forall_app. split; [apply Hc|apply Hk].
Qed.

Lemma sendsOnly_getState : sendsOnly Q getState.
Proof. intros b. apply Forall_nil_2. Qed.

Lemma sendsOnly_modify g : sendsOnly Q (modify g).
Proof. intros b. apply Forall_nil_2. Qed.

Lemma sendsOnly_emit e :
  (∀ q, request e = Some q → Q q) → sendsOnly Q (emit e).
Proof.
  intros He b. unfold out, output, requests; cbn.
  destruct (request e) as [q|]; [|apply Forall_nil_2].
  apply Forall_singleton. by apply He.
Qed.

Lemma sendsOnly_forEach {A} (l : list A) (loopBody : A → Cmd unit) :
  (∀ x, sendsOnly Q (loopBody x)) → sendsOnly Q (forEach l loopBody).
Proof.
  intros Hbody. induction l as [|x l IH]; [apply sendsOnly_ret|].
  cbn [forEach]. apply sendsOnly_bind; [apply Hbody|]. by intros _.
Qed.

Lemma sendsOnly_if {A} (c : bool) (c1 c2 : Cmd A) :
  sendsOnly Q c1 → sendsOnly Q c2 → sendsOnly Q (if c then c1 else c2).
Proof. by destruct c. Qed.

End SendsOnly.

(** Decomposition of the commands of the banker. *)
Ltac unfold_command :=
  unfold addAccount, addAccountImpl, addAccountImpl_onResponse,
    initializeAccountsPeriodic, replaceAccount, replaceAccount_onResponse,
    spendUpdate, spendUpdate_entry, spendUpdate_onResponse, setRate,
    setRate_onResponse, reauthorize, reauthorize_record, reauthorize_onResponse,
    setSpendRate, setDebug, bid, win.

Ltac preserves_step :=
  match goal with
  | |- preserves _ (_ ≫= _) => apply preserves_bind; [|intros ?]
  | |- preserves _ (mret _) => apply preserves_ret
  | |- preserves _ getState => apply preserves_getState
  | |- preserves _ (emit _) => apply preserves_emit
  | |- preserves _ (modify _) => apply preserves_modify; intros ?; reflexivity
  | |- preserves _ (forEach _ _) => apply preserves_forEach; intros ?
  | |- preserves _ (if _ then _ else _) => apply preserves_if
  | |- preserves _ (match _ with Some _ => _ | None => _ end) => case_match
  end.

Ltac preserves_tac := unfold_command; repeat (preserves_step; unfold_command).

Ltac sendsOnly_step :=
  match goal with
  | |- sendsOnly _ (_ ≫= _) => apply sendsOnly_bind; [|intros ?]
  | |- sendsOnly _ (mret _) => apply sendsOnly_ret
  | |- sendsOnly _ getState => apply sendsOnly_getState
  | |- sendsOnly _ (modify _) => apply sendsOnly_modify
  | |- sendsOnly _ (emit _) =>
      apply sendsOnly_emit; intros ? [= <-]; cbn; (done || discriminate)
  | |- sendsOnly _ (emit _) => apply sendsOnly_emit; intros ?; discriminate
  | |- sendsOnly _ (forEach _ _) => apply sendsOnly_forEach; intros ?
  | |- sendsOnly _ (if _ then _ else _) => apply sendsOnly_if
  | |- sendsOnly _ (match _ with Some _ => _ | None => _ end) => case_match
  end.

Ltac sendsOnly_tac := unfold_command; repeat (sendsOnly_step; unfold_command).

(** ** Settings *)

Lemma settings_reauthorize : preserves settings reauthorize.
Proof. preserves_tac. Qed.

Lemma settings_spendUpdate : preserves settings spendUpdate.
Proof. preserves_tac. Qed.

Lemma settings_sweep : preserves settings initializeAccountsPeriodic.
Proof. preserves_tac. Qed.

Lemma settings_addAccount key : preserves settings (addAccount key).
Proof. preserves_tac. Qed.

Lemma settings_onResponse cb r : preserves settings (onResponse cb r).
Proof. destruct cb; cbn [onResponse]; preserves_tac. Qed.

Lemma settings_step e s : settings (banker (step e s).1) = settings (banker s).
Proof.
  destruct e as [| | |key|i r]; cbn [step].
  - apply settings_reauthorize.
  - apply settings_spendUpdate.
  - apply settings_sweep.
  - apply settings_addAccount.
  - destruct (outstanding s !! i) as [[resource cb]|]; [|done].
    apply settings_onResponse.
Qed.

Lemma settings_steps evs s : settings (banker (steps evs s).1) = settings (banker s).
Proof.
  revert s. induction evs as [|e evs IH]; intros s; [done|].
  cbn [steps fst]. by rewrite IH, settings_step.
Qed.

(** ** The guards under the other events *)

Lemma reauthorizeGuard_spendUpdate : preserves reauthorizeGuard spendUpdate.
Proof. preserves_tac. Qed.

Lemma reauthorizeGuard_sweep : preserves reauthorizeGuard initializeAccountsPeriodic.
Proof. preserves_tac. Qed.

Lemma reauthorizeGuard_addAccount key : preserves reauthorizeGuard (addAccount key).
Proof. preserves_tac. Qed.

Lemma reauthorizeGuard_onResponse cb r :
  cb ≠ onReauthorize → preserves reauthorizeGuard (onResponse cb r).
Proof. intros Hcb. destruct cb; cbn [onResponse]; try done; preserves_tac. Qed.

Lemma spendUpdateGuard_reauthorize : preserves spendUpdateGuard reauthorize.
Proof. preserves_tac. Qed.

Lemma spendUpdateGuard_sweep : preserves spendUpdateGuard initializeAccountsPeriodic.
Proof. preserves_tac. Qed.

Lemma spendUpdateGuard_addAccount key : preserves spendUpdateGuard (addAccount key).
Proof. preserves_tac. Qed.

Lemma spendUpdateGuard_onResponse cb r :
  cb ≠ onSpendUpdate → preserves spendUpdateGuard (onResponse cb r).
Proof. intros Hcb. destruct cb; cbn [onResponse]; try done; preserves_tac. Qed.

(** A response never touches a skip counter, not even its own. *)
Lemma reauthorizeSkipped_onResponse cb r : preserves reauthorizeSkipped (onResponse cb r).
Proof. destruct cb; cbn [onResponse]; preserves_tac. Qed.

Lemma spendUpdateSkipped_onResponse cb r : preserves spendUpdateSkipped (onResponse cb r).
Proof. destruct cb; cbn [onResponse]; preserves_tac. Qed.

Lemma reauthorizeGuard_step e s :
  isReauthorizeTick e = false →
  delivered e s ≠ Some onReauthorize →
  reauthorizeGuard (banker (step e s).1) = reauthorizeGuard (banker s).
Proof.
  intros Htick Hcb. destruct e as [| | |key|i r]; cbn [step]; [done| | | |].
  - apply reauthorizeGuard_spendUpdate.
  - apply reauthorizeGuard_sweep.
  - apply reauthorizeGuard_addAccount.
  - cbn [delivered] in Hcb.
    destruct (outstanding s !! i) as [[resource cb]|]; [|done].
    apply reauthorizeGuard_onResponse. intros ->. by apply Hcb.
Qed.

Lemma spendUpdateGuard_step e s :
  isSpendUpdateTick e = false →
  delivered e s ≠ Some onSpendUpdate →
  spendUpdateGuard (banker (step e s).1) = spendUpdateGuard (banker s).
Proof.
  intros Htick Hcb. destruct e as [| | |key|i r]; cbn [step]; [|done| | |].
  - apply spendUpdateGuard_reauthorize.
  - apply spendUpdateGuard_sweep.
  - apply spendUpdateGuard_addAccount.
  - cbn [delivered] in Hcb.
    destruct (outstanding s !! i) as [[resource cb]|]; [|done].
    apply spendUpdateGuard_onResponse. intros ->. by apply Hcb.
Qed.

Lemma reauthorizeSkipped_step e s :
  isReauthorizeTick e = false →
  reauthorizeSkipped (banker (step e s).1) = reauthorizeSkipped (banker s).
Proof.
  intros Htick. destruct e as [| | |key|i r]; cbn [step]; [done| | | |].
  - apply (f_equal snd (reauthorizeGuard_spendUpdate _)).
  - apply (f_equal snd (reauthorizeGuard_sweep _)).
  - apply (f_equal snd (reauthorizeGuard_addAccount _ _)).
  - destruct (outstanding s !! i) as [[resource cb]|]; [|done].
    apply reauthorizeSkipped_onResponse.
Qed.

Lemma spendUpdateSkipped_step e s :
  isSpendUpdateTick e = false →
  spendUpdateSkipped (banker (step e s).1) = spendUpdateSkipped (banker s).
Proof.
  intros Htick. destruct e as [| | |key|i r]; cbn [step]; [|done| | |].
  - apply (f_equal snd (spendUpdateGuard_reauthorize _)).
  - apply (f_equal snd (spendUpdateGuard_sweep _)).
  - apply (f_equal snd (spendUpdateGuard_addAccount _ _)).
  - destruct (outstanding s !! i) as [[resource cb]|]; [|done].
    apply spendUpdateSkipped_onResponse.
Qed.

(** ** The guard over whole traces *)

Section GuardTraces.

Variable isTick : Event → bool.
Variable tick : Cmd unit.
Variable cb : Callback.
Variable resource : string.
Variable inProgress : LocalBanker → bool.
Variable skipped : LocalBanker → Z.
Variable skipHit : string.

Hypothesis step_tick : ∀ e s, isTick e = true → step e s = run tick s.
Hypothesis step_other : ∀ e s,
  isTick e = false → skipped (banker (step e s).1) = skipped (banker s).
Hypothesis tick_idle : ∀ b,
  inProgress b = false →
  inProgress (exec tick b) = true ∧ skipped (exec tick b) = 0
  ∧ requests (out tick b) = [(resource, cb)] ∧ (skipHit ∉ hits (out tick b)).
Hypothesis tick_skip : ∀ b,
  inProgress b = true → skipped b + 1 ≤ 3 →
  inProgress (exec tick b) = true ∧ skipped (exec tick b) = skipped b + 1
  ∧ requests (out tick b) = [].
Hypothesis tick_force : ∀ b,
  inProgress b = true → skipped b + 1 > 3 →
  inProgress (exec tick b) = true ∧ skipped (exec tick b) = 0
  ∧ requests (out tick b) = [(resource, cb)].

(** What one tick does, by cases on the guard. *)
Lemma tick_cases b :
  0 ≤ skipped b ≤ 3 →
  (requests (out tick b) = [(resource, cb)] ∧ skipped (exec tick b) = 0)
  ∨ (requests (out tick b) = [] ∧ skipped (exec tick b) = skipped b + 1
     ∧ skipped b + 1 ≤ 3 ∧ inProgress b = true).
Proof.
  intros Hk. destruct (inProgress b) eqn:Hflag.
  - destruct (decide (skipped b + 1 ≤ 3)) as [Hle|Hgt].
    + right. destruct (tick_skip b Hflag Hle) as (_ & ? & ?). done.
    + left. destruct (tick_force b Hflag ltac:(lia)) as (_ & ? & ?). done.
  - left. destruct (tick_idle b Hflag) as (_ & ? & ? & _). done.
Qed.

Lemma skipped_bounded_step e s :
  0 ≤ skipped (banker s) ≤ 3 → 0 ≤ skipped (banker (step e s).1) ≤ 3.
Proof.
  intros Hk. destruct (isTick e) eqn:He.
  - rewrite step_tick by done. unfold run; cbn [fst banker].
    destruct (tick_cases (banker s) Hk) as [[_ ->]|(_ & -> & ? & _)]; lia.
  - by rewrite step_other.
Qed.

Lemma skipped_bounded_steps evs s :
  0 ≤ skipped (banker s) ≤ 3 → 0 ≤ skipped (banker (steps evs s).1) ≤ 3.
Proof.
  revert s. induction evs as [|e evs IH]; intros s Hk; [done|].
  cbn [steps fst]. by apply IH, skipped_bounded_step.
Qed.

(** Enough ticks in a trace, whatever lies between them, bring a request. *)
Lemma request_within evs s :
  0 ≤ skipped (banker s) ≤ 3 →
  4 - skipped (banker s) ≤ Z.of_nat (occurrences isTick evs) →
  (resource, cb) ∈ requests (steps evs s).2.
Proof.
  revert s. induction evs as [|e evs IH]; intros s Hk Hocc.
  - cbn in Hocc. lia.
  - cbn [steps snd]. rewrite requests_app, elem_of_app.
    unfold occurrences in Hocc. rewrite filter_cons in Hocc.
    destruct (isTick e) eqn:He.
    + rewrite decide_True in Hocc by done. cbn [length] in Hocc.
      rewrite step_tick by done. unfold run; cbn [fst snd banker].
      destruct (tick_cases (banker s) Hk) as [[-> _]|(_ & Hnext & Hle & _)].
      * left. apply list_elem_of_here.
      * right. specialize (IH (run tick s).1). unfold run in IH; cbn [fst banker] in IH.
        apply IH; unfold occurrences; lia.
    + rewrite decide_False in Hocc by (by intros ?).
      right. apply IH; [by apply skipped_bounded_step|].
      rewrite step_other by done. done.
Qed.

(** Without responses the ticks issue one request in four. *)
Lemma issued_busy n b :
  inProgress b = true → 0 ≤ skipped b ≤ 3 →
  Z.of_nat (length (concat (requests <$> ticks tick n b))) = (Z.of_nat n + skipped b) `div` 4.
Proof.
  revert b. induction n as [|n IH]; intros b Hflag Hk.
  - cbn. symmetry. apply Z.div_small. lia.
  - cbn [ticks fmap list_fmap concat]. rewrite length_app, Nat2Z.inj_add.
    destruct (decide (skipped b + 1 ≤ 3)) as [Hle|Hgt].
    + destruct (tick_skip b Hflag Hle) as (Hflag' & Hnext & ->).
      rewrite IH by (done || lia). rewrite Hnext. cbn [length].
      replace (Z.of_nat (S n) + skipped b) with (Z.of_nat n + (skipped b + 1)) by lia.
      lia.
    + destruct (tick_force b Hflag ltac:(lia)) as (Hflag' & Hnext & ->).
      rewrite IH by (done || lia). rewrite Hnext. cbn [length].
      replace (Z.of_nat (S n) + skipped b) with (Z.of_nat n + 0 + 1 * 4) by lia.
      rewrite Z.div_add by lia. lia.
Qed.

Lemma issued_idle n b :
  inProgress b = false →
  Z.of_nat (length (concat (requests <$> ticks tick n b))) = (Z.of_nat n + 3) `div` 4.
Proof.
  intros Hidle. destruct n as [|n]; [done|].
  cbn [ticks fmap list_fmap concat]. rewrite length_app, Nat2Z.inj_add.
  destruct (tick_idle b Hidle) as (Hflag & Hnext & -> & _).
  rewrite issued_busy by (done || lia). rewrite Hnext. cbn [length].
  replace (Z.of_nat (S n) + 3) with (Z.of_nat n + 0 + 1 * 4) by lia.
  rewrite Z.div_add by lia. lia.
Qed.

End GuardTraces.

(** ** Requests in flight under the other events *)

Lemma filter_delete_other {A} (P : A → Prop) `{∀ x, Decision (P x)} (l : list A) i x :
  l !! i = Some x → ¬ P x →
  length (filter P (delete i l)) = length (filter P l).
Proof.
  revert i. induction l as [|y l IH]; intros i Hi Hx; [done|].
  destruct i as [|i]; cbn in Hi.
  - injection Hi as ->. cbn [delete list_delete]. by rewrite filter_cons_False.
  - cbn [delete list_delete]. rewrite !filter_cons.
    case_decide; cbn; rewrite <- (IH i) by done; done.
Qed.

Lemma inFlight_run cb c s :
  sendsOnly (λ q, q.2 ≠ cb) c → inFlight cb (run c s).1 = inFlight cb s.
Proof.
  intros Hc. unfold run; cbn [fst]. destruct s as [b o]; cbn [banker outstanding].
  rewrite inFlight_app. rewrite (filter_none_length _ (requests _)); [unfold inFlight; cbn; lia|].
  intros q Hq. by apply (proj1 (Forall_forall _ _) (Hc b)).
Qed.

Lemma others_reauthorize : sendsOnly (λ q, q.2 ≠ onSpendUpdate) reauthorize.
Proof. sendsOnly_tac. Qed.

Lemma others_spendUpdate : sendsOnly (λ q, q.2 ≠ onReauthorize) spendUpdate.
Proof. sendsOnly_tac. Qed.

Lemma others_sweep cb :
  (∀ key, cb ≠ onAddAccount key) →
  sendsOnly (λ q, q.2 ≠ cb) initializeAccountsPeriodic.
Proof. intros Hcb. sendsOnly_tac. Qed.

Lemma others_addAccount cb key :
  (∀ key, cb ≠ onAddAccount key) →
  sendsOnly (λ q, q.2 ≠ cb) (addAccount key).
Proof. intros Hcb. sendsOnly_tac. Qed.

(** A response starts replace-fetches and rate updates, never a request of
    one of the periodic protocols and never a registration. *)
Lemma others_onResponse cb r :
  sendsOnly (λ q, (∃ key, q.2 = onReplaceAccount key) ∨ q.2 = onSetRate) (onResponse cb r).
Proof.
  destruct cb; cbn [onResponse]; sendsOnly_tac.
  - apply sendsOnly_emit. intros q [= <-]. left. by eexists.
  - apply sendsOnly_emit. intros q [= <-]. by right.
Qed.

Lemma inFlight_step_other cb e s :
  cb = onReauthorize ∨ cb = onSpendUpdate →
  (cb = onReauthorize → isReauthorizeTick e = false) →
  (cb = onSpendUpdate → isSpendUpdateTick e = false) →
  delivered e s ≠ Some cb →
  inFlight cb (step e s).1 = inFlight cb s.
Proof.
  intros Hcb Hre Hsp Hdel.
  assert (Hreg : ∀ key, cb ≠ onAddAccount key) by (by destruct Hcb as [-> | ->]).
  destruct e as [| | |key|i r]; cbn [step].
  - apply inFlight_run. destruct Hcb as [-> | ->]; [by specialize (Hre eq_refl)|].
    apply others_reauthorize.
  - apply inFlight_run. destruct Hcb as [-> | ->]; [|by specialize (Hsp eq_refl)].
    apply others_spendUpdate.
  - by apply inFlight_run, others_sweep.
  - by apply inFlight_run, others_addAccount.
  - cbn [delivered] in Hdel.
    destruct (outstanding s !! i) as [[resource cb']|] eqn:Hi; [|done].
    rewrite inFlight_run.
    + unfold inFlight; cbn [outstanding].
      apply (filter_delete_other _ _ i (resource, cb')); [done|].
      cbn. intros ->. by apply Hdel.
    + intros b. eapply Forall_impl; [apply others_onResponse|].
      intros q [[key ->] | ->]; by destruct Hcb as [-> | ->].
Qed.

Lemma step_reauthorizeTick e s :
  isReauthorizeTick e = true → step e s = run reauthorize s.
Proof. by destruct e. Qed.

Lemma step_spendUpdateTick e s :
  isSpendUpdateTick e = true → step e s = run spendUpdate s.
Proof. by destruct e. Qed.

(** X1.  No starvation.  With the skip counters in their range, a trace
    that holds four ticks of a protocol holds a request of that protocol,
    whatever calls, sweeps, ticks of the other protocol and responses
    (answered or not, in any order) lie between them. *)
Theorem four_ticks_bring_a_request (s : System) (evs : list Event) :
  0 ≤ reauthorizeSkipped (banker s) ≤ 3 →
  0 ≤ spendUpdateSkipped (banker s) ≤ 3 →
  ((4 ≤ occurrences isReauthorizeTick evs)%nat →
   ("/reauthorize/1", onReauthorize) ∈ requests (steps evs s).2)
  ∧ ((4 ≤ occurrences isSpendUpdateTick evs)%nat →
     ("/spendupdate", onSpendUpdate) ∈ requests (steps evs s).2).
Proof.
  intros Hre Hsp. split; intros Hocc.
  - apply (request_within isReauthorizeTick reauthorize onReauthorize "/reauthorize/1"
             reauthorizeInProgress reauthorizeSkipped "reauthorize.inProgress"
             step_reauthorizeTick reauthorizeSkipped_step
             reauthorize_tick_idle reauthorize_tick_skip reauthorize_tick_force);
      [done|lia].
  - apply (request_within isSpendUpdateTick spendUpdate onSpendUpdate "/spendupdate"
             spendUpdateInProgress spendUpdateSkipped "spendUpdate.inProgress"
             step_spendUpdateTick spendUpdateSkipped_step
             spendUpdate_tick_idle spendUpdate_tick_skip spendUpdate_tick_force);
      [done|lia].
Qed.

Lemma four_ticks_bring_a_request_witness :
  let s :=
    mkSystem
      (set_reauthorizeSkipped 2 (set_reauthorizeInProgress true (LocalBanker_new ROUTER "router")))
      [("/reauthorize/1", onReauthorize)] in
  let evs :=
    [tick_reauthorize; tick_uninitializedAccounts; tick_reauthorize;
     deliver 0 (mkResponse 500 (Json.garbled "")); tick_reauthorize;
     call_addAccount ["camp1"; "strategy1"]; tick_reauthorize] in
  ("/reauthorize/1", onReauthorize) ∈ requests (steps evs s).2.
Proof.
  intros s evs.
  refine (proj1 (four_ticks_bring_a_request s evs _ _) _); subst s evs;
    [cbn; lia | cbn; lia | vm_compute; lia].
Defined.

(** X2.  The skip counters never leave the range 0..3: if they are in it,
    they are in it after any trace of ticks, sweeps, calls and responses. *)
Theorem skip_counters_stay_in_range (s : System) (evs : list Event) :
  0 ≤ reauthorizeSkipped (banker s) ≤ 3 →
  0 ≤ spendUpdateSkipped (banker s) ≤ 3 →
  0 ≤ reauthorizeSkipped (banker (steps evs s).1) ≤ 3
  ∧ 0 ≤ spendUpdateSkipped (banker (steps evs s).1) ≤ 3.
Proof.
  intros Hre Hsp. split.
  - apply (skipped_bounded_steps isReauthorizeTick reauthorize onReauthorize "/reauthorize/1"
             reauthorizeInProgress reauthorizeSkipped "reauthorize.inProgress"
             step_reauthorizeTick reauthorizeSkipped_step
             reauthorize_tick_idle reauthorize_tick_skip reauthorize_tick_force); done.
  - apply (skipped_bounded_steps isSpendUpdateTick spendUpdate onSpendUpdate "/spendupdate"
             spendUpdateInProgress spendUpdateSkipped "spendUpdate.inProgress"
             step_spendUpdateTick spendUpdateSkipped_step
             spendUpdate_tick_idle spendUpdate_tick_skip spendUpdate_tick_force); done.
Qed.

Lemma skip_counters_stay_in_range_witness :
  let s := mkSystem (LocalBanker_new POST_AUCTION "pal") [] in
  let evs := replicate 7 tick_spendUpdate ++ [deliver 1 (mkResponse 200 (Json.garbled ""))] in
  0 ≤ reauthorizeSkipped (banker (steps evs s).1) ≤ 3
  ∧ 0 ≤ spendUpdateSkipped (banker (steps evs s).1) ≤ 3.
Proof.
  intros s evs. apply (skip_counters_stay_in_range s evs); subst s evs; cbn; lia.
Defined.

(** X3.  Bounded backlog.  From an idle banker and with no response
    arriving, [n] ticks of a protocol issue exactly the integer part of
    (n + 3) / 4 requests: the first tick and then every fourth one. *)
Theorem one_request_in_four_ticks (b : LocalBanker) (n : nat) :
  reauthorizeInProgress b = false →
  spendUpdateInProgress b = false →
  Z.of_nat (length (concat (requests <$> ticks reauthorize n b))) = (Z.of_nat n + 3) `div` 4
  ∧ Z.of_nat (length (concat (requests <$> ticks spendUpdate n b))) = (Z.of_nat n + 3) `div` 4.
Proof.
  intros Hre Hsp. split.
  - apply (issued_idle reauthorize onReauthorize "/reauthorize/1"
             reauthorizeInProgress reauthorizeSkipped "reauthorize.inProgress"
             reauthorize_tick_idle reauthorize_tick_skip reauthorize_tick_force); done.
  - apply (issued_idle spendUpdate onSpendUpdate "/spendupdate"
             spendUpdateInProgress spendUpdateSkipped "spendUpdate.inProgress"
             spendUpdate_tick_idle spendUpdate_tick_skip spendUpdate_tick_force); done.
Qed.

Lemma one_request_in_four_ticks_witness :
  length (concat (requests <$> ticks reauthorize 10 (LocalBanker_new ROUTER "router"))) = 3%nat.
Proof.
  apply Nat2Z.inj.
  exact (proj1 (one_request_in_four_ticks (LocalBanker_new ROUTER "router") 10
                  eq_refl eq_refl)).
Defined.

(** ** One request in flight *)

Section SingleFlightInvariant.

Variable isTick : Event → bool.
Variable tick : Cmd unit.
Variable cb : Callback.
Variable resource : string.
Variable inProgress : LocalBanker → bool.
Variable skipped : LocalBanker → Z.
Variable skipHit : string.

Hypothesis step_tick : ∀ e s, isTick e = true → step e s = run tick s.
Hypothesis tick_idle : ∀ b,
  inProgress b = false →
  inProgress (exec tick b) = true ∧ skipped (exec tick b) = 0
  ∧ requests (out tick b) = [(resource, cb)] ∧ (skipHit ∉ hits (out tick b)).
Hypothesis tick_skip : ∀ b,
  inProgress b = true → skipped b + 1 ≤ 3 →
  inProgress (exec tick b) = true ∧ skipped (exec tick b) = skipped b + 1
  ∧ requests (out tick b) = [].
Hypothesis response_clears : ∀ r b, inProgress (exec (onResponse cb r) b) = false.
Hypothesis response_requests : ∀ r b q,
  q ∈ requests (out (onResponse cb r) b) → q.2 ≠ cb.
Hypothesis other_flag : ∀ e s,
  isTick e = false → delivered e s ≠ Some cb →
  inProgress (banker (step e s).1) = inProgress (banker s).
Hypothesis other_inFlight : ∀ e s,
  isTick e = false → delivered e s ≠ Some cb →
  inFlight cb (step e s).1 = inFlight cb s.

Lemma single_flight_step e s :
  inFlight cb s = (if inProgress (banker s) then 1 else 0)%nat →
  (isTick e = true → inProgress (banker s) = true → skipped (banker s) + 1 ≤ 3) →
  inFlight cb (step e s).1 = (if inProgress (banker (step e s).1) then 1 else 0)%nat.
Proof.
  intros Hinv Hunforced. destruct (isTick e) eqn:He.
  - rewrite step_tick by done. unfold run; cbn [fst banker].
    destruct s as [b o]; unfold inFlight in *; cbn [banker outstanding] in *.
    rewrite filter_app, length_app, Hinv.
    destruct (inProgress b) eqn:Hflag.
    + destruct (tick_skip b Hflag (Hunforced eq_refl eq_refl)) as (-> & _ & ->). done.
    + destruct (tick_idle b Hflag) as (-> & _ & -> & _). cbn.
      by rewrite decide_True.
  - destruct (decide (delivered e s = Some cb)) as [Hown|Hother].
    + destruct e as [| | |key|i r]; try done. cbn [delivered] in Hown.
      destruct (outstanding s !! i) as [[res cb']|] eqn:Hi; [|done].
      injection Hown as ->.
      assert (Hcount : S (inFlight cb (step (deliver i r) s).1) = inFlight cb s).
      { cbn [step]. rewrite Hi. unfold run; cbn [fst banker outstanding].
        rewrite inFlight_app.
        rewrite (filter_none_length _ (requests _)) by apply response_requests.
        unfold inFlight; cbn [outstanding].
        rewrite (filter_delete_length _ (outstanding s) i (res, cb)) by done. lia. }
      assert (Hflag : inProgress (banker (step (deliver i r) s).1) = false).
      { cbn [step]. rewrite Hi. apply response_clears. }
      rewrite Hflag. destruct (inProgress (banker s)); lia.
    + by rewrite other_flag, other_inFlight.
Qed.

End SingleFlightInvariant.

(** X4.  Single flight.  Call a protocol balanced when it has one request
    in flight if its flag is set and none if it is clear.  Every event keeps
    a balanced protocol balanced, except the tick that forces a retry (flag
    set and counter at 3). *)
Theorem single_flight_unless_forced (s : System) (e : Event) :
  inFlight onReauthorize s = (if reauthorizeInProgress (banker s) then 1 else 0)%nat →
  inFlight onSpendUpdate s = (if spendUpdateInProgress (banker s) then 1 else 0)%nat →
  ((isReauthorizeTick e = true → reauthorizeInProgress (banker s) = true →
    reauthorizeSkipped (banker s) + 1 ≤ 3) →
   inFlight onReauthorize (step e s).1
   = (if reauthorizeInProgress (banker (step e s).1) then 1 else 0)%nat)
  ∧ ((isSpendUpdateTick e = true → spendUpdateInProgress (banker s) = true →
      spendUpdateSkipped (banker s) + 1 ≤ 3) →
     inFlight onSpendUpdate (step e s).1
     = (if spendUpdateInProgress (banker (step e s).1) then 1 else 0)%nat).
Proof.
  intros Hre Hsp. split; intros Hunforced.
  - apply (single_flight_step isReauthorizeTick reauthorize onReauthorize "/reauthorize/1"
             reauthorizeInProgress reauthorizeSkipped "reauthorize.inProgress"
             step_reauthorizeTick reauthorize_tick_idle reauthorize_tick_skip
             reauthorize_onResponse_clears reauthorize_onResponse_requests); try done.
    + intros e' s' Htick Hdel.
      apply (f_equal fst (reauthorizeGuard_step e' s' Htick Hdel)).
    + intros e' s' Htick Hdel. apply inFlight_step_other; by auto.
  - apply (single_flight_step isSpendUpdateTick spendUpdate onSpendUpdate "/spendupdate"
             spendUpdateInProgress spendUpdateSkipped "spendUpdate.inProgress"
             step_spendUpdateTick spendUpdate_tick_idle spendUpdate_tick_skip
             spendUpdate_onResponse_clears spendUpdate_onResponse_callbacks); try done.
    + intros e' s' Htick Hdel.
      apply (f_equal fst (spendUpdateGuard_step e' s' Htick Hdel)).
    + intros e' s' Htick Hdel. apply inFlight_step_other; by auto.
Qed.

Lemma single_flight_unless_forced_witness :
  let s := (steps [tick_reauthorize; tick_reauthorize]
              (mkSystem (LocalBanker_new ROUTER "router") [])).1 in
  let e := deliver 0 (mkResponse 200 (Json.document (Wire.accountList []))) in
  inFlight onReauthorize (step e s).1
  = (if reauthorizeInProgress (banker (step e s).1) then 1 else 0)%nat.
Proof.
  intros s e.
  refine (proj1 (single_flight_unless_forced s e eq_refl eq_refl) _).
  intros Htick. discriminate Htick.
Defined.

(** X5.  The guards are independent.  The flag and the skip counter of a
    protocol are changed by nothing but the tick of that protocol and the
    response to one of its own requests: the other protocol, calls of
    [addAccount], sweeps and all other responses leave them as they are. *)
Theorem guards_are_independent (s : System) (e : Event) :
  (isReauthorizeTick e = false →
   delivered e s ≠ Some onReauthorize →
   reauthorizeGuard (banker (step e s).1) = reauthorizeGuard (banker s))
  ∧ (isSpendUpdateTick e = false →
     delivered e s ≠ Some onSpendUpdate →
     spendUpdateGuard (banker (step e s).1) = spendUpdateGuard (banker s)).
Proof. split; [apply reauthorizeGuard_step | apply spendUpdateGuard_step]. Qed.

(** X6.  The synchronization engine never changes the settings: after any
    trace of ticks, sweeps, calls of [addAccount] and responses, the type,
    the suffix in both forms, the spend rate and the debug switch are what
    they were. *)
Theorem settings_fixed_by_engine (s : System) (evs : list Event) :
  settings (banker (steps evs s).1) = settings (banker s).
Proof. apply settings_steps. Qed.

(** ** The role and the protocols *)

Lemma noSpendUpdate_reauthorize : sendsOnly (λ q, q.1 ≠ "/spendupdate") reauthorize.
Proof. sendsOnly_tac. Qed.

Lemma noReauthorize_spendUpdate : sendsOnly (λ q, q.1 ≠ "/reauthorize/1") spendUpdate.
Proof. sendsOnly_tac. Qed.

Lemma noProtocol_sweep :
  sendsOnly (λ q, q.1 ≠ "/spendupdate" ∧ q.1 ≠ "/reauthorize/1") initializeAccountsPeriodic.
Proof. sendsOnly_tac. Qed.

Lemma noProtocol_addAccount key :
  sendsOnly (λ q, q.1 ≠ "/spendupdate" ∧ q.1 ≠ "/reauthorize/1") (addAccount key).
Proof. sendsOnly_tac. Qed.

Lemma noProtocol_onResponse cb r :
  sendsOnly (λ q, q.1 ≠ "/spendupdate" ∧ q.1 ≠ "/reauthorize/1") (onResponse cb r).
Proof. destruct cb; cbn [onResponse]; sendsOnly_tac. Qed.

Lemma noSpendUpdate_step e s :
  isSpendUpdateTick e = false →
  Forall (λ q, q.1 ≠ "/spendupdate") (requests (step e s).2).
Proof.
  intros He. destruct e as [| | |key|i r]; cbn [step]; [|done| | |].
  - apply noSpendUpdate_reauthorize.
  - eapply Forall_impl; [apply noProtocol_sweep|]. by intros q [? _].
  - eapply Forall_impl; [apply noProtocol_addAccount|]. by intros q [? _].
  - destruct (outstanding s !! i) as [[resource cb]|]; [|apply Forall_nil_2].
    eapply Forall_impl; [apply noProtocol_onResponse|]. by intros q [? _].
Qed.

Lemma noReauthorize_step e s :
  isReauthorizeTick e = false →
  Forall (λ q, q.1 ≠ "/reauthorize/1") (requests (step e s).2).
Proof.
  intros He. destruct e as [| | |key|i r]; cbn [step]; [done| | | |].
  - apply noReauthorize_spendUpdate.
  - eapply Forall_impl; [apply noProtocol_sweep|]. by intros q [_ ?].
  - eapply Forall_impl; [apply noProtocol_addAccount|]. by intros q [_ ?].
  - destruct (outstanding s !! i) as [[resource cb]|]; [|apply Forall_nil_2].
    eapply Forall_impl; [apply noProtocol_onResponse|]. by intros q [_ ?].
Qed.

Lemma noSpendUpdate_steps evs s :
  Forall (λ e, isSpendUpdateTick e = false) evs →
  Forall (λ q, q.1 ≠ "/spendupdate") (requests (steps evs s).2).
Proof.
  revert s. induction evs as [|e evs IH]; intros s Hevs; [apply Forall_nil_2|].
  apply Forall_cons in Hevs as [He Hevs]. cbn [steps snd].
  rewrite requests_app. apply Forall_app. split; [by apply noSpendUpdate_step|by apply IH].
Qed.

Lemma noReauthorize_steps evs s :
  Forall (λ e, isReauthorizeTick e = false) evs →
  Forall (λ q, q.1 ≠ "/reauthorize/1") (requests (steps evs s).2).
Proof.
  revert s. induction evs as [|e evs IH]; intros s Hevs; [apply Forall_nil_2|].
  apply Forall_cons in Hevs as [He Hevs]. cbn [steps snd].
  rewrite requests_app. apply Forall_app. split; [by apply noReauthorize_step|by apply IH].
Qed.

Lemma scheduled_router b e :
  type b = ROUTER → scheduled b e → isSpendUpdateTick e = false.
Proof.
  intros Htype Hsched. destruct e; try done.
  unfold scheduled, init in Hsched. rewrite Htype in Hsched. cbn in Hsched.
  apply elem_of_cons in Hsched as [?|Hsched]; [done|].
  apply list_elem_of_singleton in Hsched. done.
Qed.

Lemma scheduled_postAuction b e :
  type b = POST_AUCTION → scheduled b e → isReauthorizeTick e = false.
Proof.
  intros Htype Hsched. destruct e; try done.
  unfold scheduled, init in Hsched. rewrite Htype in Hsched. cbn in Hsched.
  apply elem_of_cons in Hsched as [?|Hsched]; [done|].
  apply list_elem_of_singleton in Hsched. done.
Qed.

(** X7.  The role decides the protocol.  When the timer events of a trace
    are those [init] has installed, a router never sends a spend-update
    request and a post-auction banker never sends a reauthorize request,
    whatever calls and responses occur; both run the registration sweep. *)
Theorem role_decides_protocol (s : System) (evs : list Event) :
  Forall (scheduled (banker s)) evs →
  (type (banker s) = ROUTER →
   Forall (λ q, q.1 ≠ "/spendupdate") (requests (steps evs s).2))
  ∧ (type (banker s) = POST_AUCTION →
     Forall (λ q, q.1 ≠ "/reauthorize/1") (requests (steps evs s).2))
  ∧ scheduled (banker s) tick_uninitializedAccounts.
Proof.
  intros Hevs. split; [|split].
  - intros Htype. apply noSpendUpdate_steps.
    eapply Forall_impl; [exact Hevs|]. intros e. by apply scheduled_router.
  - intros Htype. apply noReauthorize_steps.
    eapply Forall_impl; [exact Hevs|]. intros e. by apply scheduled_postAuction.
  - unfold scheduled, init. rewrite fmap_app, fmap_app. rewrite !elem_of_app.
    right; right. apply list_elem_of_here.
Qed.

Lemma role_decides_protocol_witness :
  let s := mkSystem (LocalBanker_new ROUTER "router") [] in
  let evs :=
    [call_addAccount ["camp1"; "strategy1"]; tick_reauthorize; tick_uninitializedAccounts;
     deliver 1 (mkResponse 200 (Json.document (Wire.accountList [])))] in
  Forall (λ q, q.1 ≠ "/spendupdate") (requests (steps evs s).2).
Proof.
  intros s evs.
  refine (proj1 (role_decides_protocol s evs _) eq_refl).
  repeat constructor.
Defined.

(** ** The sweep *)

Lemma addAccountImpl_pending x b k :
  k ∈ uninitializedAccounts (exec (addAccountImpl x) b)
  ↔ (k = x ∧ Accounts.exists_ x (accounts b) = false)
    ∨ (k ∈ uninitializedAccounts b ∧ ¬ (k = x ∧ Accounts.exists_ x (accounts b) = true)).
Proof.
  unfold exec, state. destruct (Accounts.exists_ x (accounts b)) eqn:Hex.
  - rewrite addAccountImpl_known by done. cbn. rewrite elem_of_difference, elem_of_singleton.
    naive_solver.
  - rewrite addAccountImpl_new by done. cbn. rewrite elem_of_union, elem_of_singleton.
    naive_solver.
Qed.

Lemma sweep_pending l b k :
  k ∈ uninitializedAccounts (exec (forEach l addAccountImpl) b)
  ↔ (k ∈ l ∧ Accounts.exists_ k (accounts b) = false)
    ∨ (k ∈ uninitializedAccounts b ∧ ¬ (k ∈ l ∧ Accounts.exists_ k (accounts b) = true)).
Proof.
  revert b. induction l as [|x l IH]; intros b.
  - cbn. rewrite elem_of_nil. naive_solver.
  - cbn [forEach]. rewrite exec_bind, IH, addAccountImpl_accounts, addAccountImpl_pending.
    rewrite elem_of_cons.
    destruct (Accounts.exists_ k (accounts b)) eqn:Hk;
      destruct (decide (k = x)) as [->|Hne]; try rewrite Hk; naive_solver.
Qed.

Lemma sweep_accounts l b : accounts (exec (forEach l addAccountImpl) b) = accounts b.
Proof.
  apply (forEach_invariant (λ b', accounts b' = accounts b)); [|done].
  intros x b' Hb'. by rewrite addAccountImpl_accounts.
Qed.

Lemma sweep_registrations_known key l b :
  Accounts.exists_ key (accounts b) = true →
  registrations key (out (forEach l addAccountImpl) b) = 0%nat.
Proof.
  intros Hex. revert b Hex. induction l as [|x l IH]; intros b Hex; [done|].
  cbn [forEach]. rewrite out_bind, registrations_app, IH
    by by rewrite addAccountImpl_accounts.
  rewrite addAccountImpl_registrations. rewrite decide_False; [done|].
  intros [_ ?]. congruence.
Qed.

(** X8.  What a sweep does.  The keys pending after [initializeAccountsPeriodic]
    are the keys that were pending and are still unknown to the store; for
    each of them, and for no other key, exactly one registration request is
    sent; the store is not touched. *)
Theorem sweep_retries_unknown_keys (b : LocalBanker) (key : AccountKey) :
  (key ∈ uninitializedAccounts (exec initializeAccountsPeriodic b)
   ↔ key ∈ uninitializedAccounts b ∧ Accounts.exists_ key (accounts b) = false)
  ∧ registrations key (out initializeAccountsPeriodic b) =
      (if decide (key ∈ uninitializedAccounts b ∧ Accounts.exists_ key (accounts b) = false)
       then 1 else 0)%nat
  ∧ Forall (λ q, ∃ k, q = ("/accounts", onAddAccount k))
      (requests (out initializeAccountsPeriodic b))
  ∧ accounts (exec initializeAccountsPeriodic b) = accounts b.
Proof.
  destruct (initializeAccountsPeriodic_run b) as [-> ->].
  split; [|split; [|split]].
  - rewrite sweep_pending. cbn [uninitializedAccounts set_uninitializedAccounts accounts].
    rewrite elem_of_elements, elem_of_empty. naive_solver.
  - change (registrations key (?e :: ?l)) with (registrations key l).
    destruct (Accounts.exists_ key (accounts b)) eqn:Hex.
    + rewrite sweep_registrations_known by done. rewrite decide_False; [done|].
      intros [_ ?]. congruence.
    + rewrite sweep_registrations by done. case_decide as Hin.
      * apply count_NoDup; [apply NoDup_elements|]. apply elem_of_elements. tauto.
      * rewrite filter_absent; [done|]. rewrite elem_of_elements. tauto.
  - change (requests (?e :: ?l)) with (requests l).
    apply (sendsOnly_forEach (λ q, ∃ k, q = ("/accounts", onAddAccount k))).
    intros x. sendsOnly_tac. apply sendsOnly_emit. intros q [= <-]. by eexists.
  - by rewrite sweep_accounts.
Qed.

(** ** The debug switch and the spend rate *)

Lemma reauthorize_record_hits j b :
  hits (out (reauthorize_record j) b) =
    if bool_decide (record_rate j > spendRate b) then ["setRate.attempt"] else [].
Proof.
  unfold reauthorize_record, record_rate.
  rewrite out_bind; cbn [getState out exec output state value fst snd app].
  rewrite out_bind, hits_app.
  replace (exec (if debug b then _ else mret ()) b) with b by by destruct (debug b).
  replace (hits (out (if debug b then _ else mret ()) b)) with (@nil string)
    by by destruct (debug b).
  rewrite !out_bind; cbn [modify emit out exec output state value fst snd app].
  by case_bool_decide.
Qed.

Lemma reauthorize_loop_debug js d b :
  exec (forEach js reauthorize_record) (set_debug d b)
  = set_debug d (exec (forEach js reauthorize_record) b)
  ∧ sent (out (forEach js reauthorize_record) (set_debug d b))
    = sent (out (forEach js reauthorize_record) b)
  ∧ hits (out (forEach js reauthorize_record) (set_debug d b))
    = hits (out (forEach js reauthorize_record) b).
Proof.
  revert b. induction js as [|j js IH]; intros b; [done|].
  cbn [forEach]. rewrite !exec_bind, !out_bind, !sent_app, !hits_app.
  assert (Hs : exec (reauthorize_record j) (set_debug d b)
               = set_debug d (exec (reauthorize_record j) b))
    by (rewrite !reauthorize_record_state; reflexivity).
  assert (Ho : sent (out (reauthorize_record j) (set_debug d b))
               = sent (out (reauthorize_record j) b))
    by (rewrite !reauthorize_record_sent; reflexivity).
  assert (Hh : hits (out (reauthorize_record j) (set_debug d b))
               = hits (out (reauthorize_record j) b))
    by (rewrite !reauthorize_record_hits; reflexivity).
  rewrite Hs, Ho, Hh.
  destruct (IH (exec (reauthorize_record j) b)) as (-> & -> & ->).
  done.
Qed.

(** X9.  The debug switch only adds telemetry.  Processing a reauthorize
    response with the switch set to [d] leaves the banker that processing
    it leaves otherwise (up to the switch itself), sends the same requests
    and records the same counters. *)
Theorem debug_only_adds_telemetry (b : LocalBanker) (r : HttpResponse) (d : bool) :
  exec (reauthorize_onResponse r) (set_debug d b)
  = set_debug d (exec (reauthorize_onResponse r) b)
  ∧ sent (out (reauthorize_onResponse r) (set_debug d b))
    = sent (out (reauthorize_onResponse r) b)
  ∧ hits (out (reauthorize_onResponse r) (set_debug d b))
    = hits (out (reauthorize_onResponse r) b).
Proof.
  destruct (decide (status r = 200)) as [Hst|Hst].
  - destruct (Json.parse (body r)) as [jsonAccounts|] eqn:Hparse.
    + destruct (reauthorize_onResponse_success b r jsonAccounts Hst Hparse) as [-> ->].
      destruct (reauthorize_onResponse_success (set_debug d b) r jsonAccounts Hst Hparse)
        as [-> ->].
      destruct (reauthorize_loop_debug (Json.elements jsonAccounts) d
                  (set_reauthorizeInProgress false b)) as (Hs & Ho & Hh).
      change (set_reauthorizeInProgress false (set_debug d b))
        with (set_debug d (set_reauthorizeInProgress false b)).
      split; [done|]. split.
      * change (sent (?e :: ?l ++ ?m)) with (sent (l ++ m)).
        by rewrite !sent_app, Ho.
      * change (hits (?e :: ?l ++ ?m)) with (hits (l ++ m)).
        by rewrite !hits_app, Hh.
    + unfold exec, out, state, output.
      by rewrite !reauthorize_onResponse_garbled.
  - unfold exec, out, state, output.
    by rewrite !reauthorize_onResponse_failure.
Qed.

Lemma setSpendRate_run v b :
  setSpendRate v b =
    (tt, set_accounts (Accounts.setSpendRate v (accounts b)) (set_spendRate v b), []).
Proof. reflexivity. Qed.

(** X10.  [setSpendRate] sets the threshold and the amount of the rate
    updates.  It changes the spend rate of the banker and of the store and
    nothing else: type, suffix in both forms, debug switch, accounts,
    pending set and both guards are as before, and nothing is sent.  A
    reauthorize response processed afterwards sends a rate update exactly
    for the records whose rate exceeds the new value, and each update
    carries the new value. *)
Theorem setSpendRate_drives_rate_updates (b : LocalBanker) (v : Z) (r : HttpResponse)
    (records : list Wire.AccountRecord) :
  status r = 200 →
  Json.parse (body r) = Some (Wire.accountList records) →
  let b' := exec (setSpendRate v) b in
  b' = set_accounts (Accounts.mk (Accounts.accounts (accounts b)) v) (set_spendRate v b)
  ∧ type b' = type b
  ∧ accountSuffix b' = accountSuffix b
  ∧ accountSuffixNoDot b' = accountSuffixNoDot b
  ∧ debug b' = debug b
  ∧ spendRate b' = v
  ∧ Accounts.spendRate (accounts b') = v
  ∧ Accounts.accounts (accounts b') = Accounts.accounts (accounts b)
  ∧ uninitializedAccounts b' = uninitializedAccounts b
  ∧ reauthorizeGuard b' = reauthorizeGuard b
  ∧ spendUpdateGuard b' = spendUpdateGuard b
  ∧ out (setSpendRate v) b = []
  ∧ sent (out (reauthorize_onResponse r) b') =
      concat
        ((λ a,
            if bool_decide (Wire.rate a > v)
            then [post ("/accounts/" +:+ Wire.name a +:+ "/rate") onSetRate
                    (Json.objectValue [("USD/1M", Json.intValue v)])]
            else [])
           <$> records).
Proof.
  intros Hst Hparse b'. repeat (split; [done|]).
  destruct (reauthorize_onResponse_success b' r _ Hst Hparse) as [_ ->].
  match goal with
  | |- sent (?e :: ?l) = _ => change (sent (e :: l)) with (sent l)
  end.
  rewrite sent_app, app_nil_r, reauthorize_loop_sent.
  cbn [Wire.accountList Json.elements]. by rewrite <- list_fmap_compose.
Qed.

Lemma setSpendRate_drives_rate_updates_witness :
  let records :=
    [Wire.mkRecord "camp1:strategy1:router" 5000000 100001;
     Wire.mkRecord "camp2:strategy1:router" 5000000 250001] in
  sent (out (reauthorize_onResponse
               (mkResponse 200 (Json.document (Wire.accountList records))))
          (exec (setSpendRate 250000) (LocalBanker_new ROUTER "router"))) =
    [post "/accounts/camp2:strategy1:router/rate" onSetRate
       (Json.objectValue [("USD/1M", Json.intValue 250000)])].
Proof.
  intros records.
  destruct (setSpendRate_drives_rate_updates (LocalBanker_new ROUTER "router") 250000
              (mkResponse 200 (Json.document (Wire.accountList records))) records
              eq_refl eq_refl)
    as (_ & _ & _ & _ & _ & _ & _ & _ & _ & _ & _ & _ & Hsent).
  exact Hsent.
Defined.

(** ** Who writes the store and the pending set *)

Lemma accounts_reauthorize : preserves accounts reauthorize.
Proof. preserves_tac. Qed.

Lemma accounts_spendUpdate : preserves accounts spendUpdate.
Proof. preserves_tac. Qed.

Lemma accounts_sweep : preserves accounts initializeAccountsPeriodic.
Proof. preserves_tac. Qed.

Lemma accounts_addAccount key : preserves accounts (addAccount key).
Proof. preserves_tac. Qed.

Lemma accounts_onResponse cb r :
  writesStore cb = false → preserves accounts (onResponse cb r).
Proof. intros Hcb. destruct cb; try done; cbn [onResponse]; preserves_tac. Qed.

Lemma pending_reauthorize : preserves uninitializedAccounts reauthorize.
Proof. preserves_tac. Qed.

Lemma pending_spendUpdate : preserves uninitializedAccounts spendUpdate.
Proof. preserves_tac. Qed.

Lemma pending_onResponse cb r :
  (∀ key, cb ≠ onAddAccount key) → preserves uninitializedAccounts (onResponse cb r).
Proof.
  intros Hcb. destruct cb as [key| | | |]; [by destruct (Hcb key)| | | |];
    cbn [onResponse]; preserves_tac.
Qed.

Lemma pending_hotPath_bid Accounts_bid key price :
  preserves uninitializedAccounts (bid Accounts_bid key price).
Proof. preserves_tac. Qed.

Lemma pending_hotPath_win Accounts_win key price :
  preserves uninitializedAccounts (win Accounts_win key price).
Proof. preserves_tac. Qed.

(** X11.  Who writes what.  Among the events of the synchronization
    engine (timer ticks, sweeps, calls of [addAccount], responses) the
    account store is written only when a response to a registration, a
    replace-fetch or a reauthorize request is processed, and the pending set
    only by [addAccount], by the sweep and by registration responses.  Of
    the other member functions, [bid], [win] and [setSpendRate] write the
    store and [setDebug] does not; none of the four touches the pending
    set. *)
Theorem store_and_pending_writers
    (Accounts_bid Accounts_win : AccountKey → Z → Accounts.t → Accounts.t * bool)
    (s : System) (e : Event) (key : AccountKey) (price v : Z) (d : bool) :
  (mayWriteStore e s = false → accounts (banker (step e s).1) = accounts (banker s))
  ∧ (mayWritePending e s = false →
     uninitializedAccounts (banker (step e s).1) = uninitializedAccounts (banker s))
  ∧ (∀ b,
       accounts (exec (bid Accounts_bid key price) b)
       = (Accounts_bid (fullKey key b) price (accounts b)).1
       ∧ accounts (exec (win Accounts_win key price) b)
         = (Accounts_win (fullKey key b) price (accounts b)).1
       ∧ accounts (exec (setSpendRate v) b) = Accounts.setSpendRate v (accounts b)
       ∧ accounts (exec (setDebug d) b) = accounts b)
  ∧ (∀ b,
       uninitializedAccounts (exec (bid Accounts_bid key price) b) = uninitializedAccounts b
       ∧ uninitializedAccounts (exec (win Accounts_win key price) b)
         = uninitializedAccounts b
       ∧ uninitializedAccounts (exec (setSpendRate v) b) = uninitializedAccounts b
       ∧ uninitializedAccounts (exec (setDebug d) b) = uninitializedAccounts b).
Proof.
  split; [|split; [|split]].
  - intros Hw. destruct e as [| | |key0|i r]; cbn [step].
    + apply accounts_reauthorize.
    + apply accounts_spendUpdate.
    + apply accounts_sweep.
    + apply accounts_addAccount.
    + unfold mayWriteStore in Hw; cbn [delivered] in Hw.
      destruct (outstanding s !! i) as [[resource cb]|]; [|done].
      by apply accounts_onResponse.
  - intros Hw. destruct e as [| | |key0|i r]; cbn [step]; try done.
    + apply pending_reauthorize.
    + apply pending_spendUpdate.
    + cbn [mayWritePending delivered] in Hw.
      destruct (outstanding s !! i) as [[resource cb]|]; [|done].
      apply pending_onResponse. intros key0 ->. done.
  - intros b. split; [|split; [|split]]; [| |reflexivity|reflexivity].
    + unfold exec, fullKey, bid, mbind, Cmd_bind, getState; cbn [value state output fst snd].
      by destruct (Accounts_bid _ _ _) as [st' [|]]; destruct (debug b).
    + unfold exec, fullKey, win, mbind, Cmd_bind, getState; cbn [value state output fst snd].
      by destruct (Accounts_win _ _ _) as [st' [|]]; destruct (debug b).
  - intros b. split; [|split; [|split]].
    + apply (pending_hotPath_bid Accounts_bid).
    + apply (pending_hotPath_win Accounts_win).
    + reflexivity.
    + reflexivity.
Qed.

(** ** The request bodies of the ticks *)

(** X12.  What the ticks ask for.  The request an idle reauthorize tick
    sends lists the name of every account of the store, as many names as
    there are accounts and no other name; the request an idle spend-update
    tick sends holds one snapshot per account of the store. *)
Theorem ticks_report_every_account (b : LocalBanker) :
  reauthorizeInProgress b = false →
  spendUpdateInProgress b = false →
  (∃ names,
     sent (out reauthorize b) =
       [post "/reauthorize/1" onReauthorize (Json.arrayValue (Json.stringValue <$> names))]
     ∧ length names = size (Accounts.accounts (accounts b))
     ∧ ∀ n, n ∈ names ↔
         ∃ key, is_Some (Accounts.accounts (accounts b) !! key) ∧ n = Key.toString key)
  ∧ (∃ snapshots,
       sent (out spendUpdate b) =
         [post "/spendupdate" onSpendUpdate (Json.arrayValue snapshots)]
       ∧ length snapshots = size (Accounts.accounts (accounts b))
       ∧ ∀ v, v ∈ snapshots ↔
           ∃ key a, Accounts.accounts (accounts b) !! key = Some a
                    ∧ v = Accounts.toJson key a).
Proof.
  intros Hre Hsp. split.
  - exists ((λ kv, Key.toString kv.1) <$> map_to_list (Accounts.accounts (accounts b))).
    unfold out, output. rewrite reauthorize_idle by done. split; [|split].
    + unfold reauthorize_payload. by rewrite <- list_fmap_compose.
    + by rewrite length_fmap, length_map_to_list.
    + intros n. rewrite list_elem_of_fmap. split.
      * intros ([key a] & -> & Hin%elem_of_map_to_list). exists key. by eauto.
      * intros (key & [a Ha] & ->). exists (key, a). by rewrite elem_of_map_to_list.
  - exists ((λ kv, Accounts.toJson kv.1 kv.2) <$> map_to_list (Accounts.accounts (accounts b))).
    unfold out, output. rewrite spendUpdate_idle by done. split; [done|split].
    + by rewrite length_fmap, length_map_to_list.
    + intros v. rewrite list_elem_of_fmap. split.
      * intros ([key a] & -> & Hin%elem_of_map_to_list). by exists key, a.
      * intros (key & a & Ha & ->). exists (key, a). by rewrite elem_of_map_to_list.
Qed.

Lemma ticks_report_every_account_witness :
  let b :=
    set_accounts
      (Accounts.mk
         {[ ["camp1"; "strategy1"; "router"] := Accounts.mkAccount 5000000 0 100000 ]}
         100000)
      (LocalBanker_new ROUTER "router") in
  ∃ names,
    sent (out reauthorize b) =
      [post "/reauthorize/1" onReauthorize (Json.arrayValue (Json.stringValue <$> names))]
    ∧ length names = 1%nat.
Proof.
  intros b.
  destruct (ticks_report_every_account b eq_refl eq_refl) as [(names & Hsent & Hlen & _) _].
  exists names. split; [exact Hsent|]. rewrite Hlen. vm_compute. reflexivity.
Defined.

(** ** The hot path *)

Lemma fullKey_toString key b :
  Key.toString (fullKey key b) = Key.toString key +:+ ":" +:+ accountSuffix b.
Proof. apply toString_ofString. Qed.

(** X13.  The hot path.  Whatever the store decides, [bid] and [win] ask it
    under the fully-qualified key that [addAccount] registers, whose name is
    "<key>:<suffix>"; they return its decision, send no request and change
    nothing of the banker but the store; they record "Bid" or "noBid"
    ("Win" or "noWin") according to the decision, and in debug mode the
    per-account counter of the same name. *)
Theorem hot_path_consults_store_only
    (Accounts_bid Accounts_win : AccountKey → Z → Accounts.t → Accounts.t * bool)
    (b : LocalBanker) (key : AccountKey) (price : Z) :
  let k := fullKey key b in
  let decision := Accounts_bid k price (accounts b) in
  let accounted := Accounts_win k price (accounts b) in
  let counter (tag : string) :=
    recordHit ("account." +:+ Key.toString key +:+ ":" +:+ accountSuffixNoDot b +:+ tag) in
  Key.toString k = Key.toString key +:+ ":" +:+ accountSuffix b
  ∧ (Accounts.exists_ k (accounts b) = false →
     requests (out (addAccount key) b) = [("/accounts", onAddAccount k)])
  ∧ bid Accounts_bid key price b =
      (decision.2, set_accounts decision.1 b,
       recordHit (if decision.2 then "Bid" else "noBid")
         :: (if debug b
             then [counter (if decision.2 then ".Bid" else ".noBid")]
             else []))
  ∧ win Accounts_win key price b =
      (accounted.2, set_accounts accounted.1 b,
       recordHit (if accounted.2 then "Win" else "noWin")
         :: (if debug b
             then [counter (if accounted.2 then ".Win" else ".noWin")]
             else [])).
Proof.
  intros k decision accounted counter. split; [apply fullKey_toString|]. split; [|split].
  - intros Hnew. unfold out, output.
    change (addAccount key b) with (addAccountImpl k b).
    by rewrite addAccountImpl_new.
  - subst decision counter k. unfold fullKey, bid, mbind, Cmd_bind, getState.
    cbn [value state output fst snd].
    destruct (Accounts_bid _ _ _) as [st' [|]]; destruct (debug b); reflexivity.
  - subst accounted counter k. unfold fullKey, win, mbind, Cmd_bind, getState.
    cbn [value state output fst snd].
    destruct (Accounts_win _ _ _) as [st' [|]]; destruct (debug b); reflexivity.
Qed.

(** ** The constructor *)

Lemma replaceDots_occurs s : occurs "." (replaceDots s) = false.
Proof.
  induction s as [|c s IH]; [done|]. cbn.
  destruct (decide (c = "."%char)) as [->|Hc].
  - by rewrite decide_False.
  - by rewrite decide_False.
Qed.

Lemma replaceDots_length s : String.length (replaceDots s) = String.length s.
Proof. induction s as [|c s IH]; [done|]. cbn. by rewrite IH. Qed.

Lemma replaceDots_id s : occurs "." s = false → replaceDots s = s.
Proof.
  induction s as [|c s IH]; [done|]. cbn.
  destruct (decide (c = "."%char)) as [->|Hc]; [done|].
  intros Hs. by rewrite IH.
Qed.

(** X14.  The suffix used in metric names.  The constructor derives
    [accountSuffixNoDot] from the account suffix by replacing each dot with
    an underscore: it holds no dot, has the length of the suffix, is the
    suffix itself when that holds no dot, and doing it again changes
    nothing.  The suffix used in keys is kept as given. *)
Theorem suffix_without_dots (type : GoAccountType) (suffix : string) :
  let b := LocalBanker_new type suffix in
  accountSuffix b = suffix
  ∧ occurs "." (accountSuffixNoDot b) = false
  ∧ String.length (accountSuffixNoDot b) = String.length suffix
  ∧ (occurs "." suffix = false → accountSuffixNoDot b = suffix)
  ∧ replaceDots (accountSuffixNoDot b) = accountSuffixNoDot b.
Proof.
  cbn. split; [done|]. split; [apply replaceDots_occurs|].
  split; [apply replaceDots_length|]. split; [apply replaceDots_id|].
  apply replaceDots_id, replaceDots_occurs.
Qed.

(** ** Completed registrations and answered fetches *)

(** X15.  A registration that succeeds is over.  When a 200 response to the
    registration of [key] has been merged and the store knows the key, the
    key is no longer pending while every other key is pending exactly if it
    was; from then on [addAccountImpl] for the key sends nothing and changes
    nothing, and a sweep sends no registration request for it. *)
Theorem registration_completes (b : LocalBanker) (key : AccountKey) (r : HttpResponse) :
  status r = 200 →
  Accounts.exists_ key (Accounts.addFromJsonString (body r) (accounts b)).1 = true →
  let b' := exec (addAccountImpl_onResponse key r) b in
  (key ∉ uninitializedAccounts b')
  ∧ (∀ k, k ≠ key → (k ∈ uninitializedAccounts b' ↔ k ∈ uninitializedAccounts b))
  ∧ addAccountImpl key b' = (tt, b', [])
  ∧ registrations key (out initializeAccountsPeriodic b') = 0%nat.
Proof.
  intros Hst Hknown b'.
  assert (Hb' : b' = set_uninitializedAccounts (uninitializedAccounts b ∖ {[key]})
                       (set_accounts (Accounts.addFromJsonString (body r) (accounts b)).1 b)).
  { unfold b', exec, state. by rewrite addAccountImpl_onResponse_ok. }
  assert (Hex : Accounts.exists_ key (accounts b') = true) by by rewrite Hb'.
  assert (Hgone : key ∉ uninitializedAccounts b') by (rewrite Hb'; cbn; set_solver).
  split; [done|]. split; [|split].
  - intros k Hk. rewrite Hb'; cbn. set_solver.
  - rewrite addAccountImpl_known by done. f_equal. f_equal.
    replace (uninitializedAccounts b' ∖ {[key]}) with (uninitializedAccounts b')
      by set_solver.
    by destruct b'.
  - destruct (initializeAccountsPeriodic_run b') as [_ ->].
    change (registrations key (?e :: ?l)) with (registrations key l).
    by apply sweep_registrations_known.
Qed.

Lemma registration_completes_witness :
  let key := ["camp1"; "strategy1"; "router"] in
  let b := exec (addAccountImpl key) (LocalBanker_new ROUTER "router") in
  let r :=
    mkResponse 200
      (Json.document
         (Wire.account (Wire.mkRecord "camp1:strategy1:router" 5000000 100000))) in
  let b' := exec (addAccountImpl_onResponse key r) b in
  addAccountImpl key b' = (tt, b', []).
Proof.
  intros key b r b'.
  assert (Hknown : Accounts.exists_ key
                     (Accounts.addFromJsonString (body r) (accounts b)).1 = true)
    by (vm_compute; reflexivity).
  destruct (registration_completes b key r eq_refl Hknown) as (_ & _ & Hquiet & _).
  exact Hquiet.
Defined.

(** X16.  The responses to a replace-fetch and to a rate update.  The
    replace callback does not look at the key it was issued for: the
    response is applied to the account its body names.  With a status other
    than 200 the banker is left exactly as it was; with status 200 only the
    store changes, and the success counter is recorded even when the body
    was rejected and the error counter with it.  A rate update is fire and
    forget: its response changes nothing.  Neither sends a request. *)
Theorem fetch_and_rate_responses (b : LocalBanker) (key key' : AccountKey)
    (r : HttpResponse) :
  replaceAccount_onResponse key r = replaceAccount_onResponse key' r
  ∧ exec (replaceAccount_onResponse key r) b =
      (if decide (status r = 200)
       then set_accounts (Accounts.replaceFromJsonString (body r) (accounts b)).1 b
       else b)
  ∧ hits (out (replaceAccount_onResponse key r) b) =
      (if decide (status r = 200)
       then (if (Accounts.replaceFromJsonString (body r) (accounts b)).2
             then [] else ["replaceAccount.error"]) ++ ["updateOutOfSync.success"]
       else ["updateOutOfSync.failure"])
  ∧ requests (out (replaceAccount_onResponse key r) b) = []
  ∧ exec (setRate_onResponse r) b = b
  ∧ hits (out (setRate_onResponse r) b) =
      (if decide (status r = 200) then ["setRate.success"] else ["setRate.failure"])
  ∧ requests (out (setRate_onResponse r) b) = [].
Proof.
  split; [reflexivity|].
  unfold replaceAccount_onResponse, setRate_onResponse, exec, out, state, output,
    mbind, Cmd_bind; cbn.
  destruct (decide (status r = 200)) as [Hst|Hst].
  - rewrite !bool_decide_eq_false_2 by (intros ?; done). cbn.
    destruct (Accounts.replaceFromJsonString (body r) (accounts b)) as [st' [|]];
      cbn; by repeat split.
  - rewrite !bool_decide_eq_true_2 by done. cbn. by repeat split.
Qed.
